(** * Snake game (src/src/App.tsx): the game engine of the React component

    The component [App] keeps its state in React hooks ([useState]) and
    changes it from event handlers, a 150 ms interval and one 100 ms
    timeout.  Handlers of one event run to completion before the next event
    is taken from the queue, so the component is modelled as a record of the
    hook values and one function per handler.  The two sources of
    non-determinism are [Math.random] (a list of samples that the rejection
    loop of [generateFood] consumes) and the order of events (a list of
    events).  An updater function given to a state setter is run once per
    call, as React does outside of its development-only strict mode. *)

From Stdlib Require Import ZArith List Bool Lia String Ascii QArith Qround.
From Stdlib Require Import DecimalString.
From Stdlib Require DecimalPos.
Import ListNotations.

Local Open Scope Z_scope.

(** ** Data model (App.tsx, lines 4-15) *)

Record Position : Type := mkPosition { x : Z; y : Z }.

Inductive Direction : Type := UP | DOWN | LEFT | RIGHT.

Inductive GameState : Type := START | PLAYING | PAUSED | GAME_OVER.

(** A JavaScript number as far as the component uses one: the high score is
    the result of [parseInt], which is an integer or [NaN].  (Integers are
    kept exact; the rounding of a double beyond 2^53 is not modelled.) *)
Inductive jsnum : Type := JNum (z : Z) | JNaN.

Definition GRID_SIZE : Z := 20.
Definition INITIAL_SNAKE : list Position := [mkPosition 10 10].
Definition INITIAL_FOOD : Position := mkPosition 15 15.
Definition INITIAL_DIRECTION : Direction := RIGHT.

Definition Position_eqb (a b : Position) : bool :=
  (x a =? x b) && (y a =? y b).

Definition Direction_eqb (a b : Direction) : bool :=
  match a, b with
  | UP, UP | DOWN, DOWN | LEFT, LEFT | RIGHT, RIGHT => true
  | _, _ => false
  end.

Definition GameState_eqb (a b : GameState) : bool :=
  match a, b with
  | START, START | PLAYING, PLAYING | PAUSED, PAUSED
  | GAME_OVER, GAME_OVER => true
  | _, _ => false
  end.

(** The hook values of [App] (lines 21-30), the one key of [localStorage]
    the component uses, and the number of pending [setTimeout] callbacks of
    [startGame]. *)
Record State : Type := mkState {
  snake : list Position;
  food : Position;
  direction : Direction;
  gameState : GameState;
  score : Z;
  highScore : jsnum;
  gridWidth : Z;
  gridHeight : Z;
  snakeHighScore : option string;   (* localStorage['snakeHighScore'] *)
  pendingStart : nat                (* setTimeout(() => setGameState('PLAYING'), 100) *)
}.

Definition setSnake (v : list Position) (s : State) : State :=
  mkState v (food s) (direction s) (gameState s) (score s) (highScore s)
          (gridWidth s) (gridHeight s) (snakeHighScore s) (pendingStart s).
Definition setFood (v : Position) (s : State) : State :=
  mkState (snake s) v (direction s) (gameState s) (score s) (highScore s)
          (gridWidth s) (gridHeight s) (snakeHighScore s) (pendingStart s).
Definition setDirection (v : Direction) (s : State) : State :=
  mkState (snake s) (food s) v (gameState s) (score s) (highScore s)
          (gridWidth s) (gridHeight s) (snakeHighScore s) (pendingStart s).
Definition setGameState (v : GameState) (s : State) : State :=
  mkState (snake s) (food s) (direction s) v (score s) (highScore s)
          (gridWidth s) (gridHeight s) (snakeHighScore s) (pendingStart s).
Definition setScore (v : Z) (s : State) : State :=
  mkState (snake s) (food s) (direction s) (gameState s) v (highScore s)
          (gridWidth s) (gridHeight s) (snakeHighScore s) (pendingStart s).
Definition setHighScore (v : jsnum) (s : State) : State :=
  mkState (snake s) (food s) (direction s) (gameState s) (score s) v
          (gridWidth s) (gridHeight s) (snakeHighScore s) (pendingStart s).
Definition setGridWidth (v : Z) (s : State) : State :=
  mkState (snake s) (food s) (direction s) (gameState s) (score s)
          (highScore s) v (gridHeight s) (snakeHighScore s) (pendingStart s).
Definition setGridHeight (v : Z) (s : State) : State :=
  mkState (snake s) (food s) (direction s) (gameState s) (score s)
          (highScore s) (gridWidth s) v (snakeHighScore s) (pendingStart s).
Definition setItem (v : string) (s : State) : State :=
  mkState (snake s) (food s) (direction s) (gameState s) (score s)
          (highScore s) (gridWidth s) (gridHeight s) (Some v) (pendingStart s).
Definition setPendingStart (v : nat) (s : State) : State :=
  mkState (snake s) (food s) (direction s) (gameState s) (score s)
          (highScore s) (gridWidth s) (gridHeight s) (snakeHighScore s) v.

(** ** Randomness and the rejection loop

    [Math.random()] returns a number in [0, 1).  A computation that calls it
    reads the next sample of a finite list; when the list is used up the
    computation has no result ([None]): the loop of [generateFood] has not
    ended within the samples supplied. *)
Definition Rng : Type := list Q.

Definition M (A : Type) : Type := Rng -> option (A * Rng).

Definition ret {A} (a : A) : M A := fun r => Some (a, r).

Definition bind {A B} (m : M A) (k : A -> M B) : M B :=
  fun r => match m r with
           | Some (a, r') => k a r'
           | None => None
           end.

Notation "v <- m ;; k" := (bind m (fun v => k))
  (at level 61, m at next level, right associativity).

(** [Math.floor(Math.random() * n)] for the sample [u].  The product is
    taken exactly; the rounding of the double product, which never reaches
    [n], is not modelled. *)
Definition randomBelow (u : Q) (n : Z) : Z := Qfloor (u * inject_Z n).

(** [currentSnake.some(segment => segment.x === p.x && segment.y === p.y)] *)
Definition occupies (body : list Position) (p : Position) : bool :=
  existsb (fun segment => (x segment =? x p) && (y segment =? y p)) body.

(** [generateFood] (lines 48-57): a do-while loop, two samples per round. *)
Fixpoint generateFood (gridWidth gridHeight : Z)
    (currentSnake : list Position) (rng : Rng) {struct rng}
    : option (Position * Rng) :=
  match rng with
  | u :: rng1 =>
      match rng1 with
      | v :: rest =>
          let newFood :=
            mkPosition (randomBelow u gridWidth) (randomBelow v gridHeight) in
          if occupies currentSnake newFood
          then generateFood gridWidth gridHeight currentSnake rest
          else Some (newFood, rest)
      | [] => None
      end
  | [] => None
  end.

(** ** Collision and movement *)

(** [checkCollision] (lines 67-74). *)
Definition checkCollision (gridWidth gridHeight : Z)
    (head : Position) (body : list Position) : bool :=
  if (x head <? 0) || (x head >=? gridWidth)
     || (y head <? 0) || (y head >=? gridHeight)
  then true
  else existsb (fun segment => (x segment =? x head) && (y segment =? y head))
               body.

(** The [switch (direction)] of [moveSnake] (lines 81-94). *)
Definition moveHead (d : Direction) (head : Position) : Position :=
  match d with
  | UP => mkPosition (x head) (y head - 1)
  | DOWN => mkPosition (x head) (y head + 1)
  | LEFT => mkPosition (x head - 1) (y head)
  | RIGHT => mkPosition (x head + 1) (y head)
  end.

(** [n.toString()] for an integer. *)
Definition toString (n : Z) : string := NilZero.string_of_int (Z.to_int n).

(** [newScore > highScore]: a comparison with [NaN] is false. *)
Definition gtb_js (n : Z) (h : jsnum) : bool :=
  match h with
  | JNum z => n >? z
  | JNaN => false
  end.

(** The updater given to [setScore] (lines 105-112). *)
Definition eatScore (s : State) : State :=
  let newScore := score s + 10 in
  let s1 :=
    if gtb_js newScore (highScore s)
    then setItem (toString newScore) (setHighScore (JNum newScore) s)
    else s in
  setScore newScore s1.

(** [moveSnake] (lines 76-120).  [pop] is [removelast], [unshift] is cons.

    With an empty [currentSnake], [newSnake[0]] is [undefined] and [head] is
    an object without numeric coordinates: every comparison of
    [checkCollision] and of the food test is false, the head is added and
    popped again, and the snake stays empty. *)
Definition moveSnake (s : State) : M State :=
  match snake s with
  | [] => ret s
  | first :: _ =>
      let newSnake := snake s in
      let head := moveHead (direction s) first in
      if checkCollision (gridWidth s) (gridHeight s) head newSnake
      then ret (setGameState GAME_OVER s)
      else
        let newSnake := head :: newSnake in
        if (x head =? x (food s)) && (y head =? y (food s))
        then
          newFood <- generateFood (gridWidth s) (gridHeight s) newSnake ;;
          ret (setFood newFood (eatScore (setSnake newSnake s)))
        else ret (setSnake (removelast newSnake) s)
  end.

(** ** Direction input (lines 122-151 and 263-274) *)

(** [e.key.toLowerCase()].  Only the letters A-Z are mapped; a character
    outside ASCII is left as it is, and none of them lower-cases to a key
    name of the [switch]. *)
Definition lowerAscii (c : ascii) : ascii :=
  let n := nat_of_ascii c in
  if (65 <=? n)%nat && (n <=? 90)%nat then ascii_of_nat (n + 32) else c.

Fixpoint toLowerCase (k : string) : string :=
  match k with
  | EmptyString => EmptyString
  | String c rest => String (lowerAscii c) (toLowerCase rest)
  end.

(** The updater of [handleTouch] (lines 265-273). *)
Definition touchUpdater (requested prev : Direction) : Direction :=
  match requested with
  | UP => if negb (Direction_eqb prev DOWN) then UP else prev
  | DOWN => if negb (Direction_eqb prev UP) then DOWN else prev
  | LEFT => if negb (Direction_eqb prev RIGHT) then LEFT else prev
  | RIGHT => if negb (Direction_eqb prev LEFT) then RIGHT else prev
  end.

Definition handleTouch (requested : Direction) (s : State) : State :=
  if negb (GameState_eqb (gameState s) PLAYING) then s
  else setDirection (touchUpdater requested (direction s)) s.

Definition handleKeyPress (key : string) (s : State) : State :=
  if negb (GameState_eqb (gameState s) PLAYING) then s
  else
    let k := toLowerCase key in
    let prev := direction s in
    if (k =? "arrowup")%string || (k =? "w")%string then
      setDirection (if negb (Direction_eqb prev DOWN) then UP else prev) s
    else if (k =? "arrowdown")%string || (k =? "s")%string then
      setDirection (if negb (Direction_eqb prev UP) then DOWN else prev) s
    else if (k =? "arrowleft")%string || (k =? "a")%string then
      setDirection (if negb (Direction_eqb prev RIGHT) then LEFT else prev) s
    else if (k =? "arrowright")%string || (k =? "d")%string then
      setDirection (if negb (Direction_eqb prev LEFT) then RIGHT else prev) s
    else if (k =? " ")%string then
      setGameState PAUSED s
    else s.

(** ** Phase commands (lines 59-65 and 245-261) *)

Definition resetGame (s : State) : M State :=
  newFood <- generateFood (gridWidth s) (gridHeight s) INITIAL_SNAKE ;;
  ret (setGameState START
        (setScore 0
          (setDirection INITIAL_DIRECTION
            (setFood newFood (setSnake INITIAL_SNAKE s))))).

(** [startGame]: the phase becomes ['START'] at once and a timeout that sets
    ['PLAYING'] is scheduled. *)
Definition startGame (s : State) : M State :=
  if GameState_eqb (gameState s) START || GameState_eqb (gameState s) GAME_OVER
  then
    s1 <- (if GameState_eqb (gameState s) GAME_OVER
           then resetGame s else ret s) ;;
    ret (setPendingStart (S (pendingStart s1)) (setGameState START s1))
  else ret s.

(** The callback of that timeout, [() => setGameState('PLAYING')]. *)
Definition startTimeout (s : State) : State :=
  setGameState PLAYING (setPendingStart (Nat.pred (pendingStart s)) s).

Definition togglePause (s : State) : State :=
  if GameState_eqb (gameState s) PLAYING then setGameState PAUSED s
  else if GameState_eqb (gameState s) PAUSED then setGameState PLAYING s
  else s.

(** [updateGridSize] (lines 34-41) for a canvas rectangle of the given
    width and height. *)
Definition updateGridSize (width height : Q) (s : State) : State :=
  setGridHeight (Qfloor (height / inject_Z GRID_SIZE))
    (setGridWidth (Qfloor (width / inject_Z GRID_SIZE)) s).

(** ** The persisted high score (lines 26-28) *)

Definition isWhiteSpace (c : ascii) : bool :=
  let n := nat_of_ascii c in
  ((9 <=? n)%nat && (n <=? 13)%nat) || (n =? 32)%nat.

Fixpoint trimStart (str : string) : string :=
  match str with
  | String c rest => if isWhiteSpace c then trimStart rest else str
  | EmptyString => EmptyString
  end.

Definition digitValue (c : ascii) : option Z :=
  let n := nat_of_ascii c in
  if (48 <=? n)%nat && (n <=? 57)%nat then Some (Z.of_nat (n - 48))
  else if (97 <=? n)%nat && (n <=? 122)%nat then Some (Z.of_nat (n - 87))
  else if (65 <=? n)%nat && (n <=? 90)%nat then Some (Z.of_nat (n - 55))
  else None.

(** The longest prefix of digits of the radix, as a number; [acc] is [None]
    until a digit has been read. *)
Fixpoint parseDigits (radix : Z) (str : string) (acc : option Z) : option Z :=
  match str with
  | EmptyString => acc
  | String c rest =>
      match digitValue c with
      | Some d =>
          if d <? radix
          then parseDigits radix rest
                 (Some (radix * match acc with Some a => a | None => 0 end + d))
          else acc
      | None => acc
      end
  end.

(** [parseInt(str)] without a radix: leading white space, a sign, a [0x]
    prefix, then digits; [NaN] when there is no digit.  (White space
    outside ASCII is not modelled.) *)
Definition parseInt (str : string) : jsnum :=
  let s0 := trimStart str in
  let '(sign, s1) :=
    match s0 with
    | String "-" r => (-1, r)
    | String "+" r => (1, r)
    | _ => (1, s0)
    end in
  let '(radix, s2) :=
    match s1 with
    | String "0" (String "x" r) => (16, r)
    | String "0" (String "X" r) => (16, r)
    | _ => (10, s1)
    end in
  match parseDigits radix s2 None with
  | Some n => JNum (sign * n)
  | None => JNaN
  end.

(** [localStorage.getItem('snakeHighScore') || '0']: [null] and the empty
    string are falsy. *)
Definition storedOrZero (item : option string) : string :=
  match item with
  | None => "0"
  | Some EmptyString => "0"
  | Some str => str
  end.

Definition loadHighScore (item : option string) : jsnum :=
  parseInt (storedOrZero item).

(** The state of the first render, for a given content of the store. *)
Definition initialState (item : option string) : State :=
  mkState INITIAL_SNAKE INITIAL_FOOD INITIAL_DIRECTION START 0
          (loadHighScore item) 25 20 item 0.

(** ** Events

    What the browser can deliver to the component.  The interval of the
    game loop exists only while the phase is ['PLAYING'] (lines 159-173), and
    a timeout fires only if one is pending; an event that cannot occur
    leaves the state as it is. *)
Inductive Event : Type :=
| KeyDown (key : string)
| TouchStart (d : Direction)
| ClickStart
| StartTimeout
| ClickPause
| ClickReset
| Tick
| Resize (width height : Q).

Definition step (e : Event) (s : State) : M State :=
  match e with
  | KeyDown key => ret (handleKeyPress key s)
  | TouchStart d => ret (handleTouch d s)
  | ClickStart => startGame s
  | StartTimeout =>
      match pendingStart s with
      | O => ret s
      | S _ => ret (startTimeout s)
      end
  | ClickPause => ret (togglePause s)
  | ClickReset => resetGame s
  | Tick => if GameState_eqb (gameState s) PLAYING then moveSnake s else ret s
  | Resize width height => ret (updateGridSize width height s)
  end.

Fixpoint run (es : list Event) (s : State) : M State :=
  match es with
  | [] => ret s
  | e :: rest => s1 <- step e s ;; run rest s1
  end.

(** ** Predicates of the specification *)

(** The cell lies in the grid [0,W) x [0,H). *)
Definition inGrid (W H : Z) (p : Position) : Prop :=
  0 <= x p < W /\ 0 <= y p < H.

(** The cell the head moves to at the next tick: the current head plus the
    unit vector of the stored direction. *)
Definition nextHead (s : State) : option Position :=
  match snake s with
  | [] => None
  | first :: _ => Some (moveHead (direction s) first)
  end.

(** A tick is fatal when the new head is outside the grid or on a cell of
    the body as it is before the tail is removed. *)
Definition Fatal (s : State) : Prop :=
  exists head, nextHead s = Some head /\
    (~ inGrid (gridWidth s) (gridHeight s) head \/ In head (snake s)).

(** The new head is the food cell. *)
Definition EatsFood (s : State) : Prop := nextHead s = Some (food s).

(** The cells one call of [generateFood] tries, in order. *)
Fixpoint candidates (W H : Z) (rng : Rng) {struct rng} : list Position :=
  match rng with
  | u :: rng1 =>
      match rng1 with
      | v :: rest =>
          mkPosition (randomBelow u W) (randomBelow v H) :: candidates W H rest
      | [] => []
      end
  | [] => []
  end.

(** The direct opposite of a direction. *)
Definition opposite (d : Direction) : Direction :=
  match d with
  | UP => DOWN
  | DOWN => UP
  | LEFT => RIGHT
  | RIGHT => LEFT
  end.

(** The direction a key asks for, if any. *)
Definition keyDirection (key : string) : option Direction :=
  let k := toLowerCase key in
  if (k =? "arrowup")%string || (k =? "w")%string then Some UP
  else if (k =? "arrowdown")%string || (k =? "s")%string then Some DOWN
  else if (k =? "arrowleft")%string || (k =? "a")%string then Some LEFT
  else if (k =? "arrowright")%string || (k =? "d")%string then Some RIGHT
  else None.

(** All the states a run goes through, the first one included. *)
Fixpoint runStates (es : list Event) (s : State) : M (list State) :=
  match es with
  | [] => ret [s]
  | e :: rest =>
      s1 <- step e s ;;
      ss <- runStates rest s1 ;;
      ret (s :: ss)
  end.

(** The largest score among the states of a run. *)
Fixpoint maxScore (ss : list State) : Z :=
  match ss with
  | [] => 0
  | s :: rest =>
      match rest with
      | [] => score s
      | _ :: _ => Z.max (score s) (maxScore rest)
      end
  end.

(** ** Predicates of the proofs *)

(** The cell is on no segment of the snake. *)
Definition free (currentSnake : list Position) (p : Position) : bool :=
  negb (occupies currentSnake p).

(** Snake, food, score and high score (with its stored copy) are the same
    in both states. *)
Definition sameBoard (s s' : State) : Prop :=
  snake s' = snake s /\ food s' = food s /\ score s' = score s /\
  highScore s' = highScore s /\ snakeHighScore s' = snakeHighScore s.

(** The board after [resetGame]. *)
Definition freshBoard (s s' : State) : Prop :=
  snake s' = INITIAL_SNAKE /\ ~ In (food s') INITIAL_SNAKE /\
  direction s' = INITIAL_DIRECTION /\ score s' = 0 /\
  highScore s' = highScore s /\ snakeHighScore s' = snakeHighScore s.

(** The board after a tick that moves the snake by one cell. *)
Definition movedBoard (s s' : State) : Prop :=
  exists head, nextHead s = Some head /\ ~ Fatal s /\ ~ EatsFood s /\
    s' = setSnake (removelast (head :: snake s)) s.

(** The board after a tick that eats the food. *)
Definition eatenBoard (s s' : State) : Prop :=
  exists newFood, ~ Fatal s /\ EatsFood s /\ ~ In newFood (food s :: snake s) /\
    s' = setFood newFood (eatScore (setSnake (food s :: snake s) s)).

(** No segment of the snake is on the food cell. *)
Definition foodOffSnake (s : State) : Prop := ~ In (food s) (snake s).

(** The high score is the number [h], it is not negative and the score is
    not above it. *)
Definition recordIs (h : Z) (s : State) : Prop :=
  highScore s = JNum h /\ 0 <= h /\ score s <= h.

(** ** Concrete games *)

(** A 5 x 5 grid: a snake heading right one cell before the food, the same
    snake two cells before the food, and a snake of three cells whose head
    is in the right-most column. *)
Definition eatState : State :=
  mkState [mkPosition 3 2] (mkPosition 4 2) RIGHT PLAYING 0 (JNum 0) 5 5 None 0.
Definition moveState : State :=
  mkState [mkPosition 2 2] (mkPosition 4 2) RIGHT PLAYING 0 (JNum 0) 5 5 None 0.
Definition wallState : State :=
  mkState [mkPosition 4 2; mkPosition 3 2; mkPosition 2 2] (mkPosition 0 0)
          RIGHT PLAYING 0 (JNum 0) 5 5 None 0.
Definition overState : State := setGameState GAME_OVER wallState.
Definition pausedState : State := setGameState PAUSED moveState.

(** From the first render: start, five ticks to the right, turn down, four
    ticks down; the head is then at (15,14), one cell above the food. *)
Definition approachRun : list Event :=
  [ClickStart; StartTimeout; Tick; Tick; Tick; Tick; Tick;
   KeyDown "s"; Tick; Tick; Tick; Tick].

(** One more tick eats the food. *)
Definition recordRun : list Event := approachRun ++ [Tick].

(** The states of a run from the first render. *)
Definition statesOf (es : list Event) (item : option string) (rng : Rng)
    : list State :=
  match runStates es (initialState item) rng with
  | Some (ss, _) => ss
  | None => []
  end.

Definition approachStates : list State :=
  Eval vm_compute in statesOf approachRun None [].

(** The state after [recordRun], the food being placed at (0,0). *)
Definition recordState : State :=
  Eval vm_compute in
    match run recordRun (initialState None) [0; 0]%Q with
    | Some (s, _) => s
    | None => initialState None
    end.

(** ** Rendering (lines 176-243)

    The drawing effect, as the list of calls it makes on the 2D context of
    the canvas when the canvas and its context exist (otherwise it draws
    nothing).  The canvas element is 500 by 400 pixels (lines 351-352).
    The end angle [2 * Math.PI] of the food's arc is kept as the full turn
    of [ArcFull]. *)
Inductive DrawCmd : Type :=
| FillStyle (colour : string)
| StrokeStyle (colour : string)
| LineWidth (width : Z)
| FillRect (left top width height : Z)
| BeginPath
| MoveTo (px py : Z)
| LineTo (px py : Z)
| Stroke
| ArcFull (cx cy radius : Z)
| Fill.

Definition canvasWidth : Z := 500.
Definition canvasHeight : Z := 400.

(** [for (let i = 0; i <= n; i++)]: the values [i] takes. *)
Definition upTo (n : Z) : list Z := map Z.of_nat (seq 0 (Z.to_nat (n + 1))).

Definition drawGrid (gridWidth gridHeight : Z) : list DrawCmd :=
  [StrokeStyle "#374151"; LineWidth 1]
  ++ flat_map (fun i => [BeginPath; MoveTo (i * GRID_SIZE) 0;
                         LineTo (i * GRID_SIZE) canvasHeight; Stroke])
              (upTo gridWidth)
  ++ flat_map (fun i => [BeginPath; MoveTo 0 (i * GRID_SIZE);
                         LineTo canvasWidth (i * GRID_SIZE); Stroke])
              (upTo gridHeight).

(** The body of [snake.forEach((segment, index) => ...)], [isHead] being
    [index === 0]. *)
Definition drawSegment (isHead : bool) (segment : Position) : list DrawCmd :=
  [FillStyle (if isHead then "#10b981" else "#34d399");
   FillRect (x segment * GRID_SIZE + 1) (y segment * GRID_SIZE + 1)
            (GRID_SIZE - 2) (GRID_SIZE - 2)]
  ++ (if isHead
      then let eyeSize := 3 in
           [FillStyle "#1f2937";
            FillRect (x segment * GRID_SIZE + 6) (y segment * GRID_SIZE + 5)
                     eyeSize eyeSize;
            FillRect (x segment * GRID_SIZE + 11) (y segment * GRID_SIZE + 5)
                     eyeSize eyeSize]
      else []).

Definition drawSnake (body : list Position) : list DrawCmd :=
  match body with
  | [] => []
  | first :: rest =>
      drawSegment true first ++ flat_map (drawSegment false) rest
  end.

Definition drawFood (cell : Position) : list DrawCmd :=
  [FillStyle "#f97316"; BeginPath;
   ArcFull (x cell * GRID_SIZE + GRID_SIZE / 2)
           (y cell * GRID_SIZE + GRID_SIZE / 2)
           (GRID_SIZE / 2 - 2);
   Fill].

Definition draw (s : State) : list DrawCmd :=
  [FillStyle "#1f2937"; FillRect 0 0 canvasWidth canvasHeight]
  ++ drawGrid (gridWidth s) (gridHeight s)
  ++ drawSnake (snake s)
  ++ drawFood (food s).

(** ** More predicates of the proofs *)

(** Two cells are neighbours on the grid: Manhattan distance 1. *)
Definition adjacent (a b : Position) : Prop :=
  Z.abs (x a - x b) + Z.abs (y a - y b) = 1.

(** Each cell of the list is a neighbour of the next one. *)
Fixpoint chain (body : list Position) : Prop :=
  match body with
  | a :: rest =>
      match rest with
      | b :: _ => adjacent a b /\ chain rest
      | [] => True
      end
  | [] => True
  end.

(** A sample [Math.random] can return. *)
Definition unitSample (u : Q) : Prop := (0 <= u /\ u < 1)%Q.

(** The event leaves the grid at [W] by [H] cells: any event but a resize
    to a canvas rectangle of another number of cells. *)
Definition keepsGrid (W H : Z) (e : Event) : bool :=
  match e with
  | Resize width height =>
      (Qfloor (width / inject_Z GRID_SIZE) =? W)
      && (Qfloor (height / inject_Z GRID_SIZE) =? H)
  | _ => true
  end.

(** A tick or a direction/pause input (key or touch button). *)
Definition tickOrInput (e : Event) : bool :=
  match e with
  | Tick | KeyDown _ | TouchStart _ => true
  | _ => false
  end.

(** The cells of the grid [0,W) x [0,H), column by column. *)
Definition gridCells (W H : Z) : list Position :=
  flat_map (fun i => map (fun j => mkPosition (Z.of_nat i) (Z.of_nat j))
                         (seq 0 (Z.to_nat H)))
           (seq 0 (Z.to_nat W)).

(** The pixels [left, left + width) x [top, top + height) of a rectangle lie
    in the square of the cell, one pixel off its border. *)
Definition insideCell (cell : Position) (left top width height : Z) : Prop :=
  x cell * GRID_SIZE < left /\ left + width < (x cell + 1) * GRID_SIZE /\
  y cell * GRID_SIZE < top /\ top + height < (y cell + 1) * GRID_SIZE.

(** The snake is not empty and the score is 10 for each cell after the
    first. *)
Definition scoreCountsGrowth (s : State) : Prop :=
  snake s <> [] /\ score s = 10 * (Z.of_nat (List.length (snake s)) - 1).

(** Snake and food lie in a grid of [W] by [H] cells, which is the grid of
    the state. *)
Definition boardInGrid (W H : Z) (s : State) : Prop :=
  gridWidth s = W /\ gridHeight s = H /\
  Forall (inGrid W H) (snake s) /\ inGrid W H (food s).

(** The number a string of decimal digits denotes, the digits read so far
    being worth [a]. *)
Fixpoint accValue (d : Decimal.uint) (a : Z) : Z :=
  match d with
  | Decimal.Nil => a
  | Decimal.D0 d => accValue d (10 * a + 0)
  | Decimal.D1 d => accValue d (10 * a + 1)
  | Decimal.D2 d => accValue d (10 * a + 2)
  | Decimal.D3 d => accValue d (10 * a + 3)
  | Decimal.D4 d => accValue d (10 * a + 4)
  | Decimal.D5 d => accValue d (10 * a + 5)
  | Decimal.D6 d => accValue d (10 * a + 6)
  | Decimal.D7 d => accValue d (10 * a + 7)
  | Decimal.D8 d => accValue d (10 * a + 8)
  | Decimal.D9 d => accValue d (10 * a + 9)
  end.

(** ** More concrete games *)

(** A grid of two cells: the snake on the left one, the food on the right
    one; the next tick fills the grid. *)
Definition lastCellState : State :=
  mkState [mkPosition 0 0] (mkPosition 1 0) RIGHT PLAYING 0 (JNum 0) 2 1 None 0.

(** Snakes of two and three cells heading right on a 5 x 5 grid. *)
Definition twoCellState : State :=
  mkState [mkPosition 3 2; mkPosition 2 2] (mkPosition 0 0) RIGHT PLAYING 10
          (JNum 10) 5 5 None 0.
Definition threeCellState : State :=
  mkState [mkPosition 2 2; mkPosition 1 2; mkPosition 0 2] (mkPosition 4 4)
          RIGHT PLAYING 20 (JNum 20) 5 5 None 0.

(** [recordRun] after the resize of the mount effect, for the canvas of 500
    by 400 pixels with its border of 2 pixels. *)
Definition mountedRun : list Event := Resize (504 # 1) (404 # 1) :: recordRun.

(** ** Sessions

    A session is one life of the page: the events it receives and the
    samples [Math.random] gives it.  The store outlives the page: a session
    starts from the value the session before it left under
    ['snakeHighScore'].  [lifetime item sessions] runs the sessions one
    after the other from the store content [item]; it gives all the states
    gone through, in order, and the content of the store at the end. *)
Definition Session : Type := (list Event * Rng)%type.

Fixpoint lifetime (item : option string) (sessions : list Session)
    : option (list State * option string) :=
  match sessions with
  | [] => Some ([], item)
  | (es, rng) :: rest =>
      match runStates es (initialState item) rng with
      | Some (ss, _) =>
          match lifetime (snakeHighScore (last ss (initialState item))) rest with
          | Some (more, item') => Some (ss ++ more, item')
          | None => None
          end
      | None => None
      end
  end.

(** One earlier session that reaches the score 10, then a session that
    comes one cell short of the food, and the state after it eats. *)
Definition earlierSessions : list Session := [(recordRun, [0; 0]%Q)].

Definition earlierStates : list State :=
  Eval vm_compute in statesOf recordRun None [0; 0]%Q.

Definition laterStates : list State :=
  Eval vm_compute in statesOf approachRun (Some "10"%string) [].

Definition laterRecordState : State :=
  Eval vm_compute in
    match run recordRun (initialState (Some "10"%string)) [0; 0]%Q with
    | Some (s, _) => s
    | None => initialState None
    end.

(** * Properties *)

(** ** Cells and lists *)

Lemma Position_eqb_eq (a b : Position) : Position_eqb a b = true <-> a = b.
Proof.
  unfold Position_eqb. destruct a as [ax ay], b as [bx by_]. simpl.
  rewrite andb_true_iff, !Z.eqb_eq. split.
  - intros [-> ->]. reflexivity.
  - intros E. injection E as -> ->. split; reflexivity.
Qed.

Lemma occupies_In (body : list Position) (p : Position) :
  occupies body p = true <-> In p body.
Proof.
  unfold occupies. rewrite existsb_exists. split.
  - intros [q [Hq E]]. apply (Position_eqb_eq q p) in E. subst q. exact Hq.
  - intros Hp. exists p. split; [exact Hp|]. now apply (Position_eqb_eq p p).
Qed.

Lemma occupies_not_In (body : list Position) (p : Position) :
  occupies body p = false <-> ~ In p body.
Proof.
  rewrite <- occupies_In. destruct (occupies body p); split; congruence.
Qed.

Lemma In_removelast {A} (l : list A) (a : A) : In a (removelast l) -> In a l.
Proof.
  induction l as [|b l IH]; simpl; [tauto|].
  destruct l as [|c l]; [simpl; tauto|].
  intros [E|Hin]; [left; exact E|right; apply IH; exact Hin].
Qed.

Lemma NoDup_removelast {A} (l : list A) : NoDup l -> NoDup (removelast l).
Proof.
  induction 1 as [|a l Hnotin Hnd IH]; simpl; [constructor|].
  destruct l as [|c l]; [constructor|].
  constructor; [|exact IH].
  intros Hin. apply Hnotin. apply In_removelast. exact Hin.
Qed.

Lemma length_removelast_cons {A} (a : A) (l : list A) :
  List.length (removelast (a :: l)) = List.length l.
Proof.
  revert a. induction l as [|b l IH]; intros a; [reflexivity|].
  change (removelast (a :: b :: l)) with (a :: removelast (b :: l)).
  change (S (List.length (removelast (b :: l))) = S (List.length l)).
  f_equal. apply IH.
Qed.

Lemma last_cons_default {A} (a : A) (l : list A) (d d' : A) :
  last (a :: l) d = last (a :: l) d'.
Proof.
  revert a. induction l as [|b l IH]; intros a; [reflexivity|].
  change (last (b :: l) d = last (b :: l) d'). apply IH.
Qed.

(** Lists of samples are consumed two at a time. *)
Lemma pairs_ind {A} (P : list A -> Prop) :
  P [] -> (forall u, P [u]) ->
  (forall u v rest, P rest -> P (u :: v :: rest)) ->
  forall l, P l.
Proof.
  intros H0 H1 H2 l.
  assert (H : P l /\ forall a, P (a :: l)); [|exact (proj1 H)].
  induction l as [|b l [IHa IHb]]; split; auto.
Qed.

(** ** Food placement *)

Section FoodPlacement.

Variables (W H : Z) (currentSnake : list Position).

(** [generateFood] returns the first candidate that is not on the snake. *)
Lemma generateFood_find (rng : Rng) :
  option_map fst (generateFood W H currentSnake rng)
  = find (free currentSnake) (candidates W H rng).
Proof.
  induction rng as [|u|u v rest IH] using pairs_ind; [reflexivity..|].
  simpl. unfold free at 1.
  destruct (occupies currentSnake _); simpl; [exact IH|reflexivity].
Qed.

Lemma generateFood_sound (rng rest : Rng) (newFood : Position) :
  generateFood W H currentSnake rng = Some (newFood, rest) ->
  ~ In newFood currentSnake /\ In newFood (candidates W H rng).
Proof.
  intros E. pose proof (generateFood_find rng) as F.
  rewrite E in F. simpl in F. symmetry in F.
  apply find_some in F. destruct F as [Hin Hfree].
  split; [|exact Hin].
  apply occupies_not_In. unfold free in Hfree.
  now destruct (occupies currentSnake newFood).
Qed.

(** The loop ends as soon as the samples hold a free cell. *)
Lemma generateFood_total (rng : Rng) (p : Position) :
  In p (candidates W H rng) -> ~ In p currentSnake ->
  exists newFood rest, generateFood W H currentSnake rng = Some (newFood, rest).
Proof.
  intros Hin Hfree. pose proof (generateFood_find rng) as F.
  destruct (generateFood W H currentSnake rng) as [[f rest]|].
  - exists f, rest. reflexivity.
  - simpl in F. symmetry in F.
    apply (find_none _ _ F) in Hin. unfold free in Hin.
    apply occupies_not_In in Hfree. rewrite Hfree in Hin. discriminate.
Qed.

End FoodPlacement.

(** A sample in [0, 1) gives a coordinate of the grid. *)
Lemma randomBelow_range (u : Q) (n : Z) :
  (0 <= u)%Q -> (u < 1)%Q -> 0 < n -> 0 <= randomBelow u n < n.
Proof.
  intros H0 H1 Hn. unfold randomBelow.
  assert (Hq : (inject_Z 0 < inject_Z n)%Q) by (rewrite <- Zlt_Qlt; exact Hn).
  split.
  - change 0 with (Qfloor 0). apply Qfloor_resp_le.
    apply Qmult_le_0_compat; [exact H0|apply Qlt_le_weak; exact Hq].
  - rewrite Zlt_Qlt. eapply Qle_lt_trans; [apply Qfloor_le|].
    rewrite <- (Qmult_1_l (inject_Z n)) at 2.
    apply Qmult_lt_compat_r; assumption.
Qed.

Lemma candidates_inGrid (W H : Z) (rng : Rng) (p : Position) :
  0 < W -> 0 < H -> Forall (fun u => 0 <= u /\ u < 1)%Q rng ->
  In p (candidates W H rng) -> inGrid W H p.
Proof.
  intros HW HH. induction rng as [|u|u v rest IH] using pairs_ind;
    intros Hall Hin; [destruct Hin..|].
  inversion Hall as [|? ? [Hu0 Hu1] Hall1]; subst.
  inversion Hall1 as [|? ? [Hv0 Hv1] Hall2]; subst.
  destruct Hin as [<-|Hin]; [|now apply IH].
  split; simpl; now apply randomBelow_range.
Qed.

(** ** One tick *)

Lemma checkCollision_true_iff (W H : Z) (head : Position) (body : list Position) :
  checkCollision W H head body = true <-> ~ inGrid W H head \/ In head body.
Proof.
  unfold checkCollision, inGrid. rewrite !Z.geb_leb.
  destruct (Z.ltb_spec (x head) 0); simpl; [split; [intros _; left; lia | reflexivity]|].
  destruct (Z.leb_spec W (x head)); simpl; [split; [intros _; left; lia | reflexivity]|].
  destruct (Z.ltb_spec (y head) 0); simpl; [split; [intros _; left; lia | reflexivity]|].
  destruct (Z.leb_spec H (y head)); simpl; [split; [intros _; left; lia | reflexivity]|].
  fold (occupies body head). rewrite occupies_In.
  split; [intros Hin; right; exact Hin | intros [Hout|Hin]; [exfalso; apply Hout; lia | exact Hin]].
Qed.

Lemma checkCollision_Fatal (s : State) (head : Position) :
  nextHead s = Some head ->
  checkCollision (gridWidth s) (gridHeight s) head (snake s) = true <-> Fatal s.
Proof.
  intros Hh. rewrite checkCollision_true_iff. unfold Fatal. split.
  - intros Hc. exists head. split; [exact Hh | exact Hc].
  - intros [head' [Hh' Hc]]. rewrite Hh in Hh'. injection Hh' as <-. exact Hc.
Qed.

Lemma food_test_EatsFood (s : State) (head : Position) :
  nextHead s = Some head ->
  (x head =? x (food s)) && (y head =? y (food s)) = true <-> EatsFood s.
Proof.
  intros Hh. unfold EatsFood. rewrite Hh.
  fold (Position_eqb head (food s)). rewrite Position_eqb_eq.
  split; [intros ->; reflexivity | intros E; injection E as ->; reflexivity].
Qed.

Lemma nextHead_cons (s : State) (head : Position) :
  nextHead s = Some head ->
  exists first rest, snake s = first :: rest /\ head = moveHead (direction s) first.
Proof.
  unfold nextHead. destruct (snake s) as [|first rest]; [discriminate|].
  intros E. injection E as <-. exists first, rest. split; reflexivity.
Qed.

(** The three outcomes of [moveSnake] on a snake that is not empty. *)
Lemma moveSnake_fatal (s : State) (rng : Rng) :
  Fatal s -> moveSnake s rng = Some (setGameState GAME_OVER s, rng).
Proof.
  intros HF. destruct HF as [head [Hh Hc]].
  assert (C : checkCollision (gridWidth s) (gridHeight s) head (snake s) = true)
    by (apply checkCollision_true_iff; exact Hc).
  destruct (nextHead_cons s head Hh) as [first [rest [Es Eh]]].
  unfold moveSnake. rewrite Es in *. rewrite <- Eh, C. reflexivity.
Qed.

Lemma moveSnake_move (s : State) (rng : Rng) (head : Position) :
  nextHead s = Some head -> ~ Fatal s -> ~ EatsFood s ->
  moveSnake s rng = Some (setSnake (removelast (head :: snake s)) s, rng).
Proof.
  intros Hh HF HE.
  rewrite <- (checkCollision_Fatal s head Hh) in HF.
  rewrite <- (food_test_EatsFood s head Hh) in HE.
  destruct (nextHead_cons s head Hh) as [first [rest [Es Eh]]].
  unfold moveSnake. rewrite Es in *. rewrite <- Eh.
  apply not_true_is_false in HF, HE. rewrite HF, HE. reflexivity.
Qed.

Lemma moveSnake_eat (s : State) (rng : Rng) (head : Position) :
  nextHead s = Some head -> ~ Fatal s -> EatsFood s ->
  moveSnake s rng =
    match generateFood (gridWidth s) (gridHeight s) (head :: snake s) rng with
    | Some (newFood, rest) =>
        Some (setFood newFood (eatScore (setSnake (head :: snake s) s)), rest)
    | None => None
    end.
Proof.
  intros Hh HF HE.
  rewrite <- (checkCollision_Fatal s head Hh) in HF.
  rewrite <- (food_test_EatsFood s head Hh) in HE.
  destruct (nextHead_cons s head Hh) as [first [rest [Es Eh]]].
  unfold moveSnake. rewrite Es in *. rewrite <- Eh.
  apply not_true_is_false in HF. rewrite HF, HE. reflexivity.
Qed.

Lemma moveSnake_empty (s : State) (rng : Rng) :
  nextHead s = None -> moveSnake s rng = Some (s, rng).
Proof.
  unfold nextHead, moveSnake. destruct (snake s); [reflexivity|discriminate].
Qed.

Lemma Fatal_dec (s : State) : Fatal s \/ ~ Fatal s.
Proof.
  destruct (nextHead s) as [head|] eqn:Hh.
  - rewrite <- (checkCollision_Fatal s head Hh).
    destruct (checkCollision _ _ _ _); [left; reflexivity | right; discriminate].
  - right. intros [head [Hh' _]]. congruence.
Qed.

Lemma EatsFood_dec (s : State) : EatsFood s \/ ~ EatsFood s.
Proof.
  destruct (nextHead s) as [head|] eqn:Hh.
  - rewrite <- (food_test_EatsFood s head Hh).
    destruct (_ && _); [left; reflexivity | right; discriminate].
  - right. unfold EatsFood. congruence.
Qed.

Lemma snake_eatScore (s : State) : snake (eatScore s) = snake s.
Proof. unfold eatScore. destruct (gtb_js _ _); reflexivity. Qed.

Lemma food_eatScore (s : State) : food (eatScore s) = food s.
Proof. unfold eatScore. destruct (gtb_js _ _); reflexivity. Qed.

Lemma score_eatScore (s : State) : score (eatScore s) = score s + 10.
Proof. unfold eatScore. destruct (gtb_js _ _); reflexivity. Qed.

(** C1.  A tick that is not fatal keeps the length of the snake and the
    score when the new head is not the food cell, and it returns.  When the
    new head is the food cell, the snake is one cell longer and the score is
    10 higher in every state the tick returns, and the tick returns as soon
    as the samples hold a cell off the grown snake. *)
Theorem tick_length_and_score (s : State) (rng : Rng) :
  ~ Fatal s ->
  (~ EatsFood s ->
     exists s', moveSnake s rng = Some (s', rng) /\
       List.length (snake s') = List.length (snake s) /\ score s' = score s)
  /\
  (EatsFood s ->
     (forall s' rng', moveSnake s rng = Some (s', rng') ->
        List.length (snake s') = S (List.length (snake s)) /\
        score s' = score s + 10)
     /\
     (forall p, In p (candidates (gridWidth s) (gridHeight s) rng) ->
        ~ In p (food s :: snake s) ->
        exists s' rng', moveSnake s rng = Some (s', rng'))).
Proof.
  intros HF. split.
  - intros HE. destruct (nextHead s) as [head|] eqn:Hh.
    + exists (setSnake (removelast (head :: snake s)) s).
      split; [apply moveSnake_move; assumption|].
      split; [apply length_removelast_cons | reflexivity].
    + exists s. split; [apply moveSnake_empty; exact Hh|]. split; reflexivity.
  - intros HE. pose proof HE as Hh. unfold EatsFood in Hh. split.
    + intros s' rng' E. rewrite (moveSnake_eat s rng (food s) Hh HF HE) in E.
      destruct (generateFood _ _ _ _) as [[newFood rest]|]; [|discriminate].
      injection E as <- <-. cbn [snake score setFood].
      rewrite snake_eatScore, score_eatScore. split; reflexivity.
    + intros p Hin Hfree. rewrite (moveSnake_eat s rng (food s) Hh HF HE).
      destruct (generateFood_total _ _ _ rng p Hin Hfree) as [f [rest ->]].
      eexists; eexists; reflexivity.
Qed.

(** C2.  When the new head is outside the grid or on a cell of the body,
    the tick of a running game ends the game and changes nothing else:
    snake, food and score are those before the tick. *)
Theorem tick_fatal_game_over (s : State) (rng : Rng) :
  gameState s = PLAYING -> Fatal s ->
  exists s', step Tick s rng = Some (s', rng) /\
    moveSnake s rng = Some (s', rng) /\
    gameState s' = GAME_OVER /\
    snake s' = snake s /\ food s' = food s /\ score s' = score s.
Proof.
  intros HP HF. exists (setGameState GAME_OVER s).
  simpl step. rewrite HP. simpl.
  rewrite (moveSnake_fatal s rng HF). repeat split; reflexivity.
Qed.

(** A tick returns unless it eats and the samples hold no free cell. *)
Lemma moveSnake_total (s : State) (rng : Rng) :
  (~ Fatal s -> EatsFood s ->
   exists p, In p (candidates (gridWidth s) (gridHeight s) rng) /\
             ~ In p (food s :: snake s)) ->
  exists s' rng', moveSnake s rng = Some (s', rng').
Proof.
  intros Hfree. destruct (Fatal_dec s) as [HF|HF].
  { rewrite (moveSnake_fatal s rng HF). eexists; eexists; reflexivity. }
  destruct (nextHead s) as [head|] eqn:Hh.
  2:{ rewrite (moveSnake_empty s rng Hh). eexists; eexists; reflexivity. }
  destruct (EatsFood_dec s) as [HE|HE].
  - destruct (Hfree HF HE) as [p [Hin Hp]].
    pose proof HE as Hf. unfold EatsFood in Hf.
    rewrite (moveSnake_eat s rng (food s) Hf HF HE).
    destruct (generateFood_total _ _ _ rng p Hin Hp) as [f [rest ->]].
    eexists; eexists; reflexivity.
  - rewrite (moveSnake_move s rng head Hh HF HE).
    eexists; eexists; reflexivity.
Qed.

(** C3.  A tick maps a snake of pairwise distinct cells to a snake of
    pairwise distinct cells, whether it moves, grows or ends the game; and
    it does produce a snake, unless it eats and the samples hold no cell off
    the grown snake. *)
Theorem tick_preserves_distinct (s : State) (rng : Rng) :
  NoDup (snake s) ->
  (forall s' rng', moveSnake s rng = Some (s', rng') -> NoDup (snake s'))
  /\
  ((~ Fatal s -> EatsFood s ->
    exists p, In p (candidates (gridWidth s) (gridHeight s) rng) /\
              ~ In p (food s :: snake s)) ->
   exists s' rng', moveSnake s rng = Some (s', rng') /\ NoDup (snake s')).
Proof.
  intros Hnd.
  assert (Hall : forall s' rng',
             moveSnake s rng = Some (s', rng') -> NoDup (snake s')).
  { intros s' rng' E. destruct (Fatal_dec s) as [HF|HF].
    - rewrite (moveSnake_fatal s rng HF) in E. injection E as <- <-. exact Hnd.
    - destruct (nextHead s) as [head|] eqn:Hh.
      + assert (Hnd' : NoDup (head :: snake s)).
        { constructor; [|exact Hnd]. intros Hin. apply HF.
          exists head. split; [exact Hh | right; exact Hin]. }
        destruct (EatsFood_dec s) as [HE|HE].
        * rewrite (moveSnake_eat s rng head Hh HF HE) in E.
          destruct (generateFood _ _ _ _) as [[newFood rest]|]; [|discriminate].
          injection E as <- <-. cbn [snake setFood].
          rewrite snake_eatScore. exact Hnd'.
        * rewrite (moveSnake_move s rng head Hh HF HE) in E.
          injection E as <- <-.
          exact (NoDup_removelast (head :: snake s) Hnd').
      + rewrite (moveSnake_empty s rng Hh) in E. injection E as <- <-.
        exact Hnd. }
  split; [exact Hall|].
  intros Hfree. destruct (moveSnake_total s rng Hfree) as [s' [rng' E]].
  exists s', rng'. split; [exact E | exact (Hall s' rng' E)].
Qed.

(** ** What one event can do to the board *)

Ltac board := unfold sameBoard; cbn; repeat split; reflexivity.

Lemma sameBoard_refl (s : State) : sameBoard s s.
Proof. board. Qed.

Lemma handleKeyPress_board (key : string) (s : State) :
  sameBoard s (handleKeyPress key s).
Proof.
  unfold handleKeyPress.
  repeat match goal with
         | |- context [if ?b then _ else _] => destruct b
         end; board.
Qed.

Lemma handleTouch_board (d : Direction) (s : State) :
  sameBoard s (handleTouch d s).
Proof. unfold handleTouch. destruct (negb _); board. Qed.

Lemma togglePause_board (s : State) : sameBoard s (togglePause s).
Proof.
  unfold togglePause.
  destruct (GameState_eqb _ PLAYING); [board|].
  destruct (GameState_eqb _ PAUSED); board.
Qed.

Lemma resetGame_fresh (s s' : State) (rng rng' : Rng) :
  resetGame s rng = Some (s', rng') -> freshBoard s s' /\ gameState s' = START.
Proof.
  unfold resetGame, bind, ret. intros E.
  destruct (generateFood _ _ _ _) as [[newFood rest]|] eqn:G; [|discriminate].
  injection E as <- <-. apply generateFood_sound in G. destruct G as [G _].
  unfold freshBoard. cbn. repeat split; try reflexivity. exact G.
Qed.

Lemma startGame_cases (s s' : State) (rng rng' : Rng) :
  startGame s rng = Some (s', rng') -> sameBoard s s' \/ freshBoard s s'.
Proof.
  unfold startGame, bind, ret.
  destruct (GameState_eqb (gameState s) START || _); [|intros E; injection E as <- <-; left; board].
  destruct (GameState_eqb (gameState s) GAME_OVER).
  - destruct (resetGame s rng) as [[s1 r1]|] eqn:R; [|discriminate].
    intros E. injection E as <- <-. right.
    apply resetGame_fresh in R. destruct R as [R _].
    unfold freshBoard in *. cbn. exact R.
  - intros E. injection E as <- <-. left. board.
Qed.

(** A tick either leaves the board alone (fatal, or no snake), moves the
    snake, or eats. *)
Lemma moveSnake_cases (s s' : State) (rng rng' : Rng) :
  moveSnake s rng = Some (s', rng') ->
  sameBoard s s' \/ movedBoard s s' \/ eatenBoard s s'.
Proof.
  intros E. destruct (Fatal_dec s) as [HF|HF].
  { rewrite (moveSnake_fatal s rng HF) in E. injection E as <- <-. left. board. }
  destruct (nextHead s) as [head|] eqn:Hh.
  2:{ rewrite (moveSnake_empty s rng Hh) in E. injection E as <- <-. left. board. }
  destruct (EatsFood_dec s) as [HE|HE].
  - right. right. pose proof HE as Hf. unfold EatsFood in Hf.
    rewrite (moveSnake_eat s rng (food s) Hf HF HE) in E.
    destruct (generateFood _ _ _ _) as [[newFood rest]|] eqn:G; [|discriminate].
    injection E as <- <-. apply generateFood_sound in G. destruct G as [G _].
    exists newFood. repeat split; assumption || reflexivity.
  - right. left. rewrite (moveSnake_move s rng head Hh HF HE) in E.
    injection E as <- <-. exists head. repeat split; assumption || reflexivity.
Qed.

Lemma step_cases (e : Event) (s s' : State) (rng rng' : Rng) :
  step e s rng = Some (s', rng') ->
  sameBoard s s' \/ freshBoard s s' \/ movedBoard s s' \/ eatenBoard s s'.
Proof.
  destruct e; cbn [step]; unfold ret.
  - intros E. injection E as <- <-. left. apply handleKeyPress_board.
  - intros E. injection E as <- <-. left. apply handleTouch_board.
  - intros E. apply startGame_cases in E. tauto.
  - destruct (pendingStart s); intros E; injection E as <- <-; left; board.
  - intros E. injection E as <- <-. left. apply togglePause_board.
  - intros E. apply resetGame_fresh in E. tauto.
  - destruct (GameState_eqb _ _).
    + intros E. apply moveSnake_cases in E. tauto.
    + intros E. injection E as <- <-. left. board.
  - intros E. injection E as <- <-. left. board.
Qed.

(** Induction over a run. *)
Lemma run_invariant (P : State -> Prop) :
  (forall e s rng s' rng', P s -> step e s rng = Some (s', rng') -> P s') ->
  forall es s rng s' rng',
    P s -> run es s rng = Some (s', rng') -> P s'.
Proof.
  intros Hstep es. induction es as [|e es IH]; intros s rng s' rng' HP E.
  - cbn in E. injection E as <- <-. exact HP.
  - cbn [run] in E. unfold bind in E.
    destruct (step e s rng) as [[s1 r1]|] eqn:E1; [|discriminate].
    exact (IH s1 r1 s' rng' (Hstep e s rng s1 r1 HP E1) E).
Qed.

(** ** The food is off the snake *)

Lemma foodOffSnake_board (s s' : State) :
  foodOffSnake s ->
  sameBoard s s' \/ freshBoard s s' \/ movedBoard s s' \/ eatenBoard s s' ->
  foodOffSnake s'.
Proof.
  unfold foodOffSnake. intros Hoff [B|[B|[B|B]]].
  - destruct B as [-> [-> _]]. exact Hoff.
  - destruct B as [-> [B _]]. exact B.
  - destruct B as [head [Hh [_ [HE ->]]]]. cbn [snake food setSnake].
    intros Hin. apply In_removelast in Hin. destruct Hin as [E|Hin].
    + apply HE. unfold EatsFood. rewrite Hh, E. reflexivity.
    + exact (Hoff Hin).
  - destruct B as [newFood [_ [_ [Hfree ->]]]]. cbn [snake food setFood].
    rewrite snake_eatScore. exact Hfree.
Qed.

Lemma foodOffSnake_initial (item : option string) :
  foodOffSnake (initialState item).
Proof.
  unfold foodOffSnake. cbn. intros [E|[]]. discriminate.
Qed.

(** C4.  [generateFood] returns the first cell it samples that no segment
    of the given snake occupies, so a cell it returns is off that snake.
    The food, once off the snake, is off the snake after a tick; and in
    every state the game reaches from its first render the food is off the
    snake. *)
Theorem food_never_on_snake :
  (forall W H body rng,
     option_map fst (generateFood W H body rng)
     = find (fun p => negb (occupies body p)) (candidates W H rng))
  /\
  (forall W H body rng newFood rest,
     generateFood W H body rng = Some (newFood, rest) -> ~ In newFood body)
  /\
  (forall s rng s' rng',
     ~ In (food s) (snake s) -> moveSnake s rng = Some (s', rng') ->
     ~ In (food s') (snake s'))
  /\
  (forall item es rng s rng',
     run es (initialState item) rng = Some (s, rng') ->
     ~ In (food s) (snake s)).
Proof.
  split; [|split; [|split]].
  - intros W H body rng. apply generateFood_find.
  - intros W H body rng newFood rest E.
    exact (proj1 (generateFood_sound W H body rng rest newFood E)).
  - intros s rng s' rng' Hoff E.
    apply (foodOffSnake_board s s' Hoff).
    apply moveSnake_cases in E. tauto.
  - intros item es rng s rng' E.
    apply (run_invariant foodOffSnake) with (3 := E).
    + intros e s0 r0 s1 r1 Hoff E1.
      exact (foodOffSnake_board s0 s1 Hoff (step_cases e s0 s1 r0 r1 E1)).
    + apply foodOffSnake_initial.
Qed.

(** ** Direction and pause input *)

Lemma GameState_eqb_eq (a b : GameState) : GameState_eqb a b = true <-> a = b.
Proof. destruct a, b; simpl; split; congruence. Qed.

Lemma Direction_eqb_eq (a b : Direction) : Direction_eqb a b = true <-> a = b.
Proof. destruct a, b; simpl; split; congruence. Qed.

Lemma not_playing (s : State) :
  gameState s <> PLAYING -> negb (GameState_eqb (gameState s) PLAYING) = true.
Proof.
  intros Hn. destruct (GameState_eqb _ _) eqn:E; [|reflexivity].
  apply GameState_eqb_eq in E. contradiction.
Qed.

Lemma handleKeyPress_idle (key : string) (s : State) :
  gameState s <> PLAYING -> handleKeyPress key s = s.
Proof. intros Hn. unfold handleKeyPress. now rewrite (not_playing s Hn). Qed.

Lemma handleTouch_idle (d : Direction) (s : State) :
  gameState s <> PLAYING -> handleTouch d s = s.
Proof. intros Hn. unfold handleTouch. now rewrite (not_playing s Hn). Qed.

(** The updater adopts the request unless it is the opposite of [prev]. *)
Lemma touchUpdater_spec (requested prev : Direction) :
  (requested = opposite prev -> touchUpdater requested prev = prev) /\
  (requested <> opposite prev -> touchUpdater requested prev = requested).
Proof. destruct requested, prev; simpl; split; congruence. Qed.

(** The keyboard handler of a running game: a direction key runs the same
    updater as the touch button, the space bar pauses, any other key does
    nothing. *)
Lemma handleKeyPress_playing (key : string) (s : State) :
  gameState s = PLAYING ->
  handleKeyPress key s =
    match keyDirection key with
    | Some d => setDirection (touchUpdater d (direction s)) s
    | None => if (toLowerCase key =? " ")%string
              then setGameState PAUSED s else s
    end.
Proof.
  intros HP. unfold handleKeyPress, keyDirection. rewrite HP. cbn [GameState_eqb negb].
  repeat match goal with
         | |- context [if ?b || ?c then _ else _] => destruct (b || c)
         end; reflexivity.
Qed.

(** C5.  While the game runs, a direction request (touch button or key)
    leaves the stored direction as it is when the request is the opposite
    of the stored direction, and stores the request otherwise.  While the
    game does not run, a request changes nothing at all. *)
Theorem direction_request_arbitration :
  (forall s requested, gameState s = PLAYING ->
     (requested = opposite (direction s) ->
        direction (handleTouch requested s) = direction s) /\
     (requested <> opposite (direction s) ->
        direction (handleTouch requested s) = requested))
  /\
  (forall s key requested, gameState s = PLAYING ->
     keyDirection key = Some requested ->
     (requested = opposite (direction s) ->
        direction (handleKeyPress key s) = direction s) /\
     (requested <> opposite (direction s) ->
        direction (handleKeyPress key s) = requested))
  /\
  (forall s requested, gameState s <> PLAYING -> handleTouch requested s = s)
  /\
  (forall s key, gameState s <> PLAYING -> handleKeyPress key s = s).
Proof.
  split; [|split; [|split]].
  - intros s requested HP. unfold handleTouch. rewrite HP.
    cbn [GameState_eqb negb direction setDirection].
    apply touchUpdater_spec.
  - intros s key requested HP HK.
    rewrite (handleKeyPress_playing key s HP), HK.
    cbn [direction setDirection]. apply touchUpdater_spec.
  - intros s requested Hn. apply handleTouch_idle. exact Hn.
  - intros s key Hn. apply handleKeyPress_idle. exact Hn.
Qed.

Lemma run_keys_idle (keys : list string) (s : State) (rng : Rng) :
  gameState s <> PLAYING -> run (map KeyDown keys) s rng = Some (s, rng).
Proof.
  intros Hn. induction keys as [|key keys IH]; [reflexivity|].
  cbn [map run step]. unfold bind, ret.
  rewrite (handleKeyPress_idle key s Hn). exact IH.
Qed.

(** C9.  A key changes the phase only from ['PLAYING'] to ['PAUSED'] (the
    space bar does).  While the game is paused, not started or over, a key
    changes neither the phase nor the direction nor anything else, so no
    sequence of keys resumes a paused game. *)
Theorem keyboard_only_pauses :
  (forall s, gameState s = PLAYING ->
     gameState (handleKeyPress " " s) = PAUSED)
  /\
  (forall s key, gameState (handleKeyPress key s) <> gameState s ->
     gameState s = PLAYING /\ gameState (handleKeyPress key s) = PAUSED)
  /\
  (forall s key, gameState s <> PLAYING ->
     handleKeyPress key s = s /\
     gameState (handleKeyPress key s) = gameState s /\
     direction (handleKeyPress key s) = direction s)
  /\
  (forall s keys rng, gameState s = PAUSED ->
     run (map KeyDown keys) s rng = Some (s, rng)).
Proof.
  split; [|split; [|split]].
  - intros s HP. rewrite (handleKeyPress_playing " " s HP). reflexivity.
  - intros s key Hch.
    destruct (GameState_eqb (gameState s) PLAYING) eqn:E.
    + apply GameState_eqb_eq in E. split; [exact E|].
      rewrite (handleKeyPress_playing key s E) in *.
      destruct (keyDirection key); [exfalso; apply Hch; reflexivity|].
      destruct (toLowerCase key =? " ")%string;
        [reflexivity | exfalso; apply Hch; reflexivity].
    + exfalso. apply Hch. rewrite handleKeyPress_idle; [reflexivity|].
      intros HP. rewrite HP in E. discriminate.
  - intros s key Hn. rewrite (handleKeyPress_idle key s Hn).
    repeat split; reflexivity.
  - intros s keys rng HP. apply run_keys_idle. rewrite HP. discriminate.
Qed.

(** ** Start and reset *)

Lemma resetGame_total (s : State) (rng : Rng) (p : Position) :
  In p (candidates (gridWidth s) (gridHeight s) rng) -> ~ In p INITIAL_SNAKE ->
  exists s' rng', resetGame s rng = Some (s', rng').
Proof.
  intros Hin Hfree. unfold resetGame, bind, ret.
  destruct (generateFood_total _ _ _ rng p Hin Hfree) as [f [rest ->]].
  eexists; eexists; reflexivity.
Qed.

(** C8.  A start command does nothing while the game is running or paused.
    When the game is over it resets the game (initial snake, a new food
    cell off it, score 0), leaves the phase at ['START'] and schedules the
    timeout whose callback sets ['PLAYING']; command and callback together
    lead to a running game on the reset board.  The command returns as soon
    as the samples hold a cell other than the initial snake's. *)
Theorem start_command :
  (forall s rng, gameState s = PLAYING \/ gameState s = PAUSED ->
     startGame s rng = Some (s, rng))
  /\
  (forall s rng s1 rng1, gameState s = GAME_OVER ->
     startGame s rng = Some (s1, rng1) ->
     snake s1 = INITIAL_SNAKE /\ ~ In (food s1) INITIAL_SNAKE /\
     direction s1 = INITIAL_DIRECTION /\ score s1 = 0 /\
     gameState s1 = START /\ pendingStart s1 = S (pendingStart s) /\
     exists s2, run [ClickStart; StartTimeout] s rng = Some (s2, rng1) /\
       gameState s2 = PLAYING /\ snake s2 = INITIAL_SNAKE /\
       food s2 = food s1 /\ direction s2 = INITIAL_DIRECTION /\ score s2 = 0)
  /\
  (forall s rng p, gameState s = GAME_OVER ->
     In p (candidates (gridWidth s) (gridHeight s) rng) ->
     ~ In p INITIAL_SNAKE ->
     exists s1 rng1, startGame s rng = Some (s1, rng1)).
Proof.
  split; [|split].
  - intros s rng [HP|HP]; unfold startGame; rewrite HP; reflexivity.
  - intros s rng s1 rng1 HG E.
    assert (E' := E). unfold startGame in E. rewrite HG in E.
    cbn [GameState_eqb orb] in E. unfold bind, ret in E.
    destruct (resetGame s rng) as [[s0 r0]|] eqn:R; [|discriminate].
    injection E as <- <-.
    destruct (resetGame_fresh s s0 rng r0 R) as [[Hs [Hf [Hd [Hsc _]]]] _].
    assert (Hp : pendingStart s0 = pendingStart s).
    { unfold resetGame, bind, ret in R.
      destruct (generateFood _ _ _ _) as [[f r]|]; [|discriminate].
      injection R as <- <-. reflexivity. }
    cbn. rewrite Hp. repeat split; try assumption.
    eexists. split.
    + unfold bind. rewrite E'. cbn. reflexivity.
    + cbn. repeat split; assumption.
  - intros s rng p HG Hin Hfree. unfold startGame. rewrite HG.
    cbn [GameState_eqb orb]. unfold bind, ret.
    destruct (resetGame_total s rng p Hin Hfree) as [s0 [r0 ->]].
    eexists; eexists; reflexivity.
Qed.

(** C10.  Whatever the state before, [resetGame] yields a snake of the one
    cell (10,10), direction ['RIGHT'], score 0, phase ['START'] and a food
    cell other than (10,10); it returns as soon as the samples hold a cell
    other than (10,10). *)
Theorem reset_core_state :
  (forall s rng s' rng', resetGame s rng = Some (s', rng') ->
     snake s' = [mkPosition 10 10] /\ direction s' = RIGHT /\
     score s' = 0 /\ gameState s' = START /\ food s' <> mkPosition 10 10)
  /\
  (forall s rng p,
     In p (candidates (gridWidth s) (gridHeight s) rng) ->
     p <> mkPosition 10 10 ->
     exists s' rng', resetGame s rng = Some (s', rng')).
Proof.
  split.
  - intros s rng s' rng' R.
    destruct (resetGame_fresh s s' rng rng' R) as [[Hs [Hf [Hd [Hsc _]]]] Hg].
    repeat split; try assumption.
    intros E. apply Hf. rewrite E. left. reflexivity.
  - intros s rng p Hin Hne. apply (resetGame_total s rng p Hin).
    intros [E|[]]. apply Hne. symmetry. exact E.
Qed.

(** ** The high score *)

Lemma highScore_eatScore (s : State) (h : Z) :
  highScore s = JNum h ->
  highScore (eatScore s) = JNum (Z.max h (score s + 10)).
Proof.
  intros E. unfold eatScore. rewrite E. simpl gtb_js.
  rewrite Z.gtb_ltb. destruct (Z.ltb_spec h (score s + 10)); cbn.
  - f_equal. lia.
  - rewrite E. f_equal. lia.
Qed.

(** One event: the high score does not go down, and it changes exactly when
    the new score is above it, to that score. *)
Lemma step_record (e : Event) (s s' : State) (rng rng' : Rng) (h : Z) :
  recordIs h s -> step e s rng = Some (s', rng') ->
  exists h', recordIs h' s' /\ h <= h' /\
    (h' <> h <-> h < score s') /\ (h' <> h -> h' = score s').
Proof.
  intros [Hh [H0 Hs]] E. apply step_cases in E.
  destruct E as [B|[B|[B|B]]].
  - destruct B as [_ [_ [Es [Eh _]]]]. exists h. unfold recordIs.
    rewrite Es, Eh. repeat split; try assumption; lia.
  - destruct B as [_ [_ [_ [Es [Eh _]]]]]. exists h. unfold recordIs.
    rewrite Es, Eh. repeat split; try assumption; lia.
  - destruct B as [head [_ [_ [_ ->]]]]. exists h. unfold recordIs.
    cbn [score highScore setSnake]. repeat split; try assumption; lia.
  - destruct B as [newFood [_ [_ [_ ->]]]].
    exists (Z.max h (score s + 10)). unfold recordIs.
    cbn [score highScore setFood]. rewrite score_eatScore.
    rewrite (highScore_eatScore (setSnake (food s :: snake s) s) h Hh).
    cbn [score setSnake]. repeat split; lia.
Qed.

Lemma runStates_head (es : list Event) (s : State) (rng rng' : Rng)
    (ss : list State) :
  runStates es s rng = Some (ss, rng') -> exists rest, ss = s :: rest.
Proof.
  destruct es as [|e es]; cbn [runStates]; unfold bind, ret.
  - intros E. injection E as <- <-. exists []. reflexivity.
  - destruct (step e s rng) as [[s1 r1]|]; [|discriminate].
    destruct (runStates es s1 r1) as [[ss1 r2]|]; [|discriminate].
    intros E. injection E as <- <-. exists ss1. reflexivity.
Qed.

(** The last state of [runStates] is the state [run] ends in. *)
Lemma runStates_last (es : list Event) (s : State) (rng rng' : Rng)
    (ss : list State) :
  runStates es s rng = Some (ss, rng') ->
  run es s rng = Some (last ss s, rng').
Proof.
  revert s rng ss. induction es as [|e es IH]; intros s rng ss;
    cbn [runStates run]; unfold bind, ret.
  - intros E. injection E as <- <-. reflexivity.
  - destruct (step e s rng) as [[s1 r1]|]; [|discriminate].
    destruct (runStates es s1 r1) as [[ss1 r2]|] eqn:R; [|discriminate].
    intros E. injection E as <- <-.
    destruct (runStates_head es s1 r1 r2 ss1 R) as [rest ->].
    rewrite (IH s1 r1 (s1 :: rest) R).
    change (last (s :: s1 :: rest) s) with (last (s1 :: rest) s).
    now rewrite (last_cons_default s1 rest s s1).
Qed.

Lemma run_record (es : list Event) (s : State) (rng rng' : Rng)
    (ss : list State) (h : Z) :
  recordIs h s -> runStates es s rng = Some (ss, rng') ->
  recordIs (Z.max h (maxScore ss)) (last ss s).
Proof.
  revert s rng ss h. induction es as [|e es IH]; intros s rng ss h HR;
    cbn [runStates]; unfold bind, ret.
  - intros E. injection E as <- <-. cbn.
    destruct HR as [Hh [H0 Hs]]. rewrite Z.max_l by exact Hs.
    repeat split; assumption.
  - destruct (step e s rng) as [[s1 r1]|] eqn:E1; [|discriminate].
    destruct (runStates es s1 r1) as [[ss1 r2]|] eqn:R; [|discriminate].
    intros E. injection E as <- <-.
    destruct (step_record e s s1 rng r1 h HR E1) as [h1 [HR1 [Hle [_ Hnew]]]].
    pose proof (IH s1 r1 ss1 h1 HR1 R) as HL.
    destruct (runStates_head es s1 r1 r2 ss1 R) as [rest ->].
    change (last (s :: s1 :: rest) s) with (last (s1 :: rest) s).
    rewrite (last_cons_default s1 rest s s1).
    change (maxScore (s :: s1 :: rest))
      with (Z.max (score s) (maxScore (s1 :: rest))).
    assert (Hs1 : score s1 <= maxScore (s1 :: rest)).
    { destruct rest; cbn; lia. }
    destruct HR as [_ [_ Hs]].
    replace (Z.max h (Z.max (score s) (maxScore (s1 :: rest))))
      with (Z.max h1 (maxScore (s1 :: rest))); [exact HL|].
    destruct (Z.eq_dec h1 h) as [->|Hne]; [lia|].
    specialize (Hnew Hne). lia.
Qed.

Lemma recordIs_initial (item : option string) (h0 : Z) :
  loadHighScore item = JNum h0 -> 0 <= h0 -> recordIs h0 (initialState item).
Proof. intros E H0. unfold recordIs. cbn. auto. Qed.

Lemma Fatal_by_check (s : State) (head : Position) :
  nextHead s = Some head ->
  checkCollision (gridWidth s) (gridHeight s) head (snake s) = true -> Fatal s.
Proof. intros Hh C. exact (proj1 (checkCollision_Fatal s head Hh) C). Qed.

Lemma not_Fatal_by_check (s : State) (head : Position) :
  nextHead s = Some head ->
  checkCollision (gridWidth s) (gridHeight s) head (snake s) = false ->
  ~ Fatal s.
Proof.
  intros Hh C HF. apply (checkCollision_Fatal s head Hh) in HF. congruence.
Qed.

Lemma not_EatsFood_by_test (s : State) (head : Position) :
  nextHead s = Some head -> Position_eqb head (food s) = false -> ~ EatsFood s.
Proof.
  intros Hh C HE. apply (food_test_EatsFood s head Hh) in HE.
  unfold Position_eqb in C. congruence.
Qed.

(** C7.  An absent or empty stored value gives the high score 0, but a
    stored value without a leading integer, such as [abc], gives [NaN]
    and not 0; and then a game that eats the food and scores 10 leaves the
    high score at [NaN] and the store as it was. *)
Theorem loadHighScore_unparsable_is_NaN :
  loadHighScore None = JNum 0 /\
  loadHighScore (Some EmptyString) = JNum 0 /\
  loadHighScore (Some "abc"%string) = JNaN /\
  highScore (initialState (Some "abc"%string)) <> JNum 0 /\
  exists s, run recordRun (initialState (Some "abc"%string)) [0; 0]%Q
            = Some (s, []) /\
    score s = 10 /\ highScore s = JNaN /\
    snakeHighScore s = Some "abc"%string.
Proof.
  split; [reflexivity|]. split; [reflexivity|]. split; [reflexivity|].
  split; [discriminate|].
  eexists. split; [vm_compute; reflexivity|]. repeat split; reflexivity.
Qed.

(** ** The theorems at the concrete games *)

Lemma tick_length_and_score_witness :
  (exists s', moveSnake moveState [] = Some (s', []) /\
     List.length (snake s') = 1%nat /\ score s' = 0)
  /\
  (exists s' rng', moveSnake eatState [0; 0]%Q = Some (s', rng') /\
     List.length (snake s') = 2%nat /\ score s' = 10).
Proof.
  split.
  - apply (proj1 (tick_length_and_score moveState []
             (not_Fatal_by_check moveState (mkPosition 3 2) eq_refl eq_refl))).
    apply (not_EatsFood_by_test moveState (mkPosition 3 2)); reflexivity.
  - destruct (proj2 (tick_length_and_score eatState [0; 0]%Q
               (not_Fatal_by_check eatState (mkPosition 4 2) eq_refl eq_refl))
               eq_refl) as [Hlen Hret].
    destruct (Hret (mkPosition 0 0)) as [s' [rng' E]].
    + left. reflexivity.
    + intros [E|[E|[]]]; discriminate.
    + exists s', rng'. split; [exact E|]. exact (Hlen s' rng' E).
Defined.

Lemma tick_fatal_game_over_witness :
  exists s', step Tick wallState [] = Some (s', []) /\
    moveSnake wallState [] = Some (s', []) /\
    gameState s' = GAME_OVER /\
    snake s' = [mkPosition 4 2; mkPosition 3 2; mkPosition 2 2] /\
    food s' = mkPosition 0 0 /\ score s' = 0.
Proof.
  apply (tick_fatal_game_over wallState [] eq_refl).
  apply (Fatal_by_check wallState (mkPosition 5 2)); reflexivity.
Defined.

Lemma tick_preserves_distinct_witness :
  NoDup (snake recordState) /\
  exists s' rng', moveSnake eatState [0; 0]%Q = Some (s', rng') /\
                  NoDup (snake s').
Proof.
  assert (Hone : forall p : Position, NoDup [p]).
  { intros p. constructor; [intros []|constructor]. }
  split.
  - apply (proj1 (tick_preserves_distinct
                    (last approachStates (initialState None)) [0; 0]%Q
                    (Hone (mkPosition 15 14)))
             recordState []).
    reflexivity.
  - apply (proj2 (tick_preserves_distinct eatState [0; 0]%Q
                    (Hone (mkPosition 3 2)))).
    intros _ _. exists (mkPosition 0 0). split.
    + left. reflexivity.
    + intros [E|[E|[]]]; discriminate.
Defined.

Lemma food_never_on_snake_witness :
  ~ In (mkPosition 6 15) INITIAL_SNAKE /\
  ~ In (mkPosition 4 2) [mkPosition 3 2] /\
  ~ In (mkPosition 15 15) [mkPosition 15 14].
Proof.
  destruct food_never_on_snake as [_ [Hgen [Htick Hrun]]].
  split; [|split].
  - apply (Hgen 25 20 INITIAL_SNAKE [2 # 5; 1 # 2; 1 # 4; 3 # 4]%Q
             (mkPosition 6 15) []).
    vm_compute. reflexivity.
  - apply (Htick moveState []
             (setSnake [mkPosition 3 2] moveState) []).
    + intros [E|[]]. discriminate.
    + vm_compute. reflexivity.
  - apply (Hrun None approachRun []
             (last approachStates (initialState None)) []).
    vm_compute. reflexivity.
Defined.

Lemma direction_request_arbitration_witness :
  direction (handleTouch LEFT moveState) = RIGHT /\
  direction (handleTouch UP moveState) = UP /\
  direction (handleKeyPress "ArrowLeft" moveState) = RIGHT /\
  direction (handleKeyPress "W" moveState) = UP /\
  handleTouch UP pausedState = pausedState /\
  handleKeyPress "w" pausedState = pausedState.
Proof.
  destruct direction_request_arbitration as [Htouch [Hkey [Htidle Hkidle]]].
  split; [|split; [|split; [|split; [|split]]]].
  - apply (proj1 (Htouch moveState LEFT eq_refl)). reflexivity.
  - apply (proj2 (Htouch moveState UP eq_refl)). discriminate.
  - apply (proj1 (Hkey moveState "ArrowLeft"%string LEFT eq_refl eq_refl)).
    reflexivity.
  - apply (proj2 (Hkey moveState "W"%string UP eq_refl eq_refl)).
    discriminate.
  - apply (Htidle pausedState UP). discriminate.
  - apply (Hkidle pausedState "w"%string). discriminate.
Defined.

Lemma keyboard_only_pauses_witness :
  gameState (handleKeyPress " " moveState) = PAUSED /\
  (gameState moveState = PLAYING /\
   gameState (handleKeyPress " " moveState) = PAUSED) /\
  handleKeyPress " " pausedState = pausedState /\
  run (map KeyDown [" "; "w"; "Enter"]%string) pausedState []
  = Some (pausedState, []).
Proof.
  destruct keyboard_only_pauses as [Hspace [Hchange [Hidle Hkeys]]].
  split; [|split; [|split]].
  - apply (Hspace moveState). reflexivity.
  - apply (Hchange moveState " "%string). discriminate.
  - apply (Hidle pausedState " "%string). discriminate.
  - apply (Hkeys pausedState [" "; "w"; "Enter"]%string []). reflexivity.
Defined.

Lemma start_command_witness :
  startGame pausedState [] = Some (pausedState, []) /\
  startGame moveState [] = Some (moveState, []) /\
  exists s1 s2,
    startGame overState [0; 0]%Q = Some (s1, []) /\
    run [ClickStart; StartTimeout] overState [0; 0]%Q = Some (s2, []) /\
    snake s1 = INITIAL_SNAKE /\ score s1 = 0 /\ gameState s1 = START /\
    gameState s2 = PLAYING /\ snake s2 = INITIAL_SNAKE /\ score s2 = 0.
Proof.
  destruct start_command as [Hnoop [Hover Htotal]].
  split; [|split].
  - apply (Hnoop pausedState []). right. reflexivity.
  - apply (Hnoop moveState []). left. reflexivity.
  - destruct (Htotal overState [0; 0]%Q (mkPosition 0 0) eq_refl)
      as [s1 [rng1 E]].
    + left. reflexivity.
    + intros [D|[]]. discriminate.
    + assert (Er : rng1 = []).
      { vm_compute in E. injection E as _ <-. reflexivity. }
      subst rng1.
      destruct (Hover overState [0; 0]%Q s1 [] eq_refl E)
        as [Hs [_ [_ [Hsc [Hg [_ [s2 [R [Hg2 [Hs2 [_ [_ Hsc2]]]]]]]]]]]].
      exists s1, s2. repeat split; assumption.
Defined.

Lemma reset_core_state_witness :
  exists s' rng', resetGame wallState [0; 0]%Q = Some (s', rng') /\
    snake s' = [mkPosition 10 10] /\ direction s' = RIGHT /\
    score s' = 0 /\ gameState s' = START /\ food s' <> mkPosition 10 10.
Proof.
  destruct reset_core_state as [Hcore Htotal].
  destruct (Htotal wallState [0; 0]%Q (mkPosition 0 0)) as [s' [rng' E]].
  - left. reflexivity.
  - discriminate.
  - exists s', rng'. split; [exact E|]. exact (Hcore wallState _ s' rng' E).
Defined.

(** * Further properties of the code *)

(** ** Food placement on small and full grids *)

Lemma generateFood_samples (P : Q -> Prop) (W H : Z) (body : list Position)
    (rng rest : Rng) (newFood : Position) :
  Forall P rng -> generateFood W H body rng = Some (newFood, rest) ->
  Forall P rest.
Proof.
  induction rng as [|u|u v rng IH] using pairs_ind; [discriminate..|].
  intros Hall. inversion Hall as [|? ? _ Hall1]; subst.
  inversion Hall1 as [|? ? _ Hall2]; subst. simpl.
  destruct (occupies body _); [exact (IH Hall2)|].
  intros E. injection E as _ <-. exact Hall2.
Qed.

Lemma generateFood_inGrid_aux (W H : Z) (body : list Position)
    (rng rest : Rng) (newFood : Position) :
  0 < W -> 0 < H -> Forall unitSample rng ->
  generateFood W H body rng = Some (newFood, rest) -> inGrid W H newFood.
Proof.
  intros HW HH Hall E.
  apply (candidates_inGrid W H rng newFood HW HH Hall).
  exact (proj2 (generateFood_sound W H body rng rest newFood E)).
Qed.

(** X1.  On a grid with at least one column and one row, and with samples in
    [0, 1), the cell [generateFood] returns is a cell of the grid, and the
    samples it leaves are in [0, 1). *)
Theorem generateFood_in_grid (W H : Z) (body : list Position)
    (rng rest : Rng) (newFood : Position) :
  0 < W -> 0 < H -> Forall unitSample rng ->
  generateFood W H body rng = Some (newFood, rest) ->
  inGrid W H newFood /\ Forall unitSample rest.
Proof.
  intros HW HH Hall E. split.
  - exact (generateFood_inGrid_aux W H body rng rest newFood HW HH Hall E).
  - exact (generateFood_samples unitSample W H body rng rest newFood Hall E).
Qed.

(** X2.  When the snake covers every cell of the grid, the loop of
    [generateFood] rejects every sample: it has no result, however many
    samples it is given. *)
Theorem generateFood_full_board (W H : Z) (body : list Position) (rng : Rng) :
  0 < W -> 0 < H -> Forall unitSample rng ->
  (forall p, inGrid W H p -> In p body) ->
  generateFood W H body rng = None.
Proof.
  intros HW HH Hall Hfull.
  destruct (generateFood W H body rng) as [[newFood rest]|] eqn:E;
    [|reflexivity].
  exfalso.
  apply (proj1 (generateFood_sound W H body rng rest newFood E)).
  apply Hfull.
  exact (generateFood_inGrid_aux W H body rng rest newFood HW HH Hall E).
Qed.

(** X3.  The tick that eats the food with the snake then covering the whole
    grid has no result: the game hangs instead of ending. *)
Theorem moveSnake_last_cell_hangs (s : State) (rng : Rng) :
  0 < gridWidth s -> 0 < gridHeight s -> Forall unitSample rng ->
  ~ Fatal s -> EatsFood s ->
  (forall p, inGrid (gridWidth s) (gridHeight s) p ->
             In p (food s :: snake s)) ->
  moveSnake s rng = None.
Proof.
  intros HW HH Hall HF HE Hfull.
  pose proof HE as Hh. unfold EatsFood in Hh.
  rewrite (moveSnake_eat s rng (food s) Hh HF HE).
  destruct (generateFood _ _ _ _) as [[newFood rest]|] eqn:E; [|reflexivity].
  exfalso.
  apply (proj1 (generateFood_sound _ _ _ rng rest newFood E)).
  apply Hfull.
  exact (generateFood_inGrid_aux _ _ _ rng rest newFood HW HH Hall E).
Qed.

Lemma randomBelow_zero (u : Q) : randomBelow u 0 = 0.
Proof.
  unfold randomBelow. destruct u as [n d]. unfold Qfloor, Qmult. simpl.
  rewrite Z.mul_0_r. apply Z.div_0_l. discriminate.
Qed.

(** X4.  With a canvas smaller than one cell the grid is 0 by 0, and every cell
    [generateFood] tries is (0,0), whatever the samples: the food is placed
    there, outside the empty grid, unless the snake has a segment on (0,0),
    in which case the loop has no result. *)
Theorem generateFood_empty_grid (body : list Position) (rng : Rng) :
  (forall newFood rest, generateFood 0 0 body rng = Some (newFood, rest) ->
     newFood = mkPosition 0 0 /\ ~ inGrid 0 0 newFood)
  /\
  (In (mkPosition 0 0) body -> generateFood 0 0 body rng = None).
Proof.
  assert (Hc : forall p, In p (candidates 0 0 rng) -> p = mkPosition 0 0).
  { induction rng as [|u|u v rng IH] using pairs_ind; [intros p []..|].
    intros p [<-|Hin]; [|exact (IH p Hin)].
    now rewrite !randomBelow_zero. }
  split.
  - intros newFood rest E.
    rewrite (Hc newFood (proj2 (generateFood_sound 0 0 body rng rest newFood E))).
    split; [reflexivity|]. unfold inGrid. simpl. lia.
  - intros Hin.
    destruct (generateFood 0 0 body rng) as [[newFood rest]|] eqn:E;
      [|reflexivity].
    exfalso. destruct (generateFood_sound 0 0 body rng rest newFood E) as [Hf Hcand].
    apply Hf. rewrite (Hc newFood Hcand). exact Hin.
Qed.

(** ** What one event does to the samples, the grid and the food *)

Ltac crack E :=
  repeat match type of E with
         | Some _ = Some _ => injection E as <- <-
         | None = Some _ => discriminate E
         | context [generateFood ?W ?H ?b ?r] =>
             let G := fresh "G" in
             destruct (generateFood W H b r) as [[? ?]|] eqn:G
         | context [if ?b then _ else _] => destruct b
         | context [match ?l with [] => _ | _ :: _ => _ end] => destruct l
         | context [match ?n with O => _ | S _ => _ end] => destruct n
         end.

Ltac open_step e E :=
  destruct e; cbn [step] in E;
  unfold startGame, resetGame, moveSnake, bind, ret in E; crack E.

Lemma step_samples (P : Q -> Prop) (e : Event) (s s' : State)
    (rng rng' : Rng) :
  Forall P rng -> step e s rng = Some (s', rng') -> Forall P rng'.
Proof.
  intros Hall E. open_step e E; try exact Hall;
    match goal with
    | G : generateFood _ _ _ _ = Some _ |- _ =>
        exact (generateFood_samples P _ _ _ _ _ _ Hall G)
    end.
Qed.

Lemma handleKeyPress_grid (key : string) (s : State) :
  gridWidth (handleKeyPress key s) = gridWidth s /\
  gridHeight (handleKeyPress key s) = gridHeight s.
Proof.
  unfold handleKeyPress.
  repeat match goal with
         | |- context [if ?b then _ else _] => destruct b
         end; split; reflexivity.
Qed.

Lemma eatScore_grid (s : State) :
  gridWidth (eatScore s) = gridWidth s /\ gridHeight (eatScore s) = gridHeight s.
Proof. unfold eatScore. destruct (gtb_js _ _); split; reflexivity. Qed.

Lemma step_grid (W H : Z) (e : Event) (s s' : State) (rng rng' : Rng) :
  keepsGrid W H e = true -> gridWidth s = W -> gridHeight s = H ->
  step e s rng = Some (s', rng') -> gridWidth s' = W /\ gridHeight s' = H.
Proof.
  intros Hk HW HH E. subst W H.
  destruct e; cbn [step] in E;
    try (unfold ret in E; injection E as <- <-).
  - apply handleKeyPress_grid.
  - unfold handleTouch. destruct (negb _); split; reflexivity.
  - unfold startGame, resetGame, bind, ret in E. crack E; split; reflexivity.
  - unfold ret in E. destruct (pendingStart s); injection E as <- <-;
      split; reflexivity.
  - unfold togglePause.
    repeat match goal with
           | |- context [if ?b then _ else _] => destruct b
           end; split; reflexivity.
  - unfold resetGame, bind, ret in E. crack E. split; reflexivity.
  - unfold moveSnake, bind, ret in E. crack E; cbn;
      try (split; reflexivity).
    apply (eatScore_grid (setSnake _ s)).
  - cbn in Hk. apply andb_true_iff in Hk. destruct Hk as [Hw Hh].
    apply Z.eqb_eq in Hw, Hh. split; [exact Hw | exact Hh].
Qed.

Lemma step_food (e : Event) (s s' : State) (rng rng' : Rng) :
  step e s rng = Some (s', rng') ->
  food s' = food s \/
  exists body,
    generateFood (gridWidth s) (gridHeight s) body rng = Some (food s', rng').
Proof.
  intros E. destruct e; cbn [step] in E;
    try (unfold ret in E; injection E as <- <-).
  - left. apply (handleKeyPress_board key s).
  - left. apply (handleTouch_board d s).
  - unfold startGame, resetGame, bind, ret in E. crack E;
      try (left; reflexivity).
    right. eexists. eassumption.
  - unfold ret in E. destruct (pendingStart s); injection E as <- <-;
      left; reflexivity.
  - left. apply (togglePause_board s).
  - unfold resetGame, bind, ret in E. crack E. right. eexists. eassumption.
  - unfold moveSnake, bind, ret in E. crack E; try (left; reflexivity).
    right. eexists. eassumption.
  - left. reflexivity.
Qed.

(** Induction over a run whose events satisfy [ok], with the samples. *)
Lemma run_invariant_samples (ok : Event -> bool) (P : State -> Prop)
    (R : Rng -> Prop) :
  (forall e s rng s' rng', ok e = true -> R rng -> P s ->
     step e s rng = Some (s', rng') -> P s' /\ R rng') ->
  forall es s rng s' rng',
    forallb ok es = true -> R rng -> P s ->
    run es s rng = Some (s', rng') -> P s' /\ R rng'.
Proof.
  intros Hstep es. induction es as [|e es IH]; intros s rng s' rng' Hok HR HP E.
  - cbn in E. injection E as <- <-. split; assumption.
  - cbn [run] in E. unfold bind in E. cbn [forallb] in Hok.
    apply andb_true_iff in Hok. destruct Hok as [Hok1 Hok2].
    destruct (step e s rng) as [[s1 r1]|] eqn:E1; [|discriminate].
    destruct (Hstep e s rng s1 r1 Hok1 HR HP E1) as [HP1 HR1].
    exact (IH s1 r1 s' rng' Hok2 HR1 HP1 E).
Qed.

(** ** Invariants of the snake *)

Lemma notFatal_head (s : State) (head : Position) :
  ~ Fatal s -> nextHead s = Some head ->
  inGrid (gridWidth s) (gridHeight s) head /\ ~ In head (snake s).
Proof.
  intros HF Hh.
  assert (D : inGrid (gridWidth s) (gridHeight s) head \/
              ~ inGrid (gridWidth s) (gridHeight s) head)
    by (unfold inGrid; lia).
  split.
  - destruct D as [D|D]; [exact D|]. exfalso. apply HF.
    exists head. split; [exact Hh | left; exact D].
  - intros Hin. apply HF. exists head. split; [exact Hh | right; exact Hin].
Qed.

Lemma removelast_cons_nonempty {A} (a b : A) (l : list A) :
  removelast (a :: b :: l) = a :: removelast (b :: l).
Proof. reflexivity. Qed.

Lemma scoreCountsGrowth_board (s s' : State) :
  scoreCountsGrowth s ->
  sameBoard s s' \/ freshBoard s s' \/ movedBoard s s' \/ eatenBoard s s' ->
  scoreCountsGrowth s'.
Proof.
  unfold scoreCountsGrowth. intros [Hne Hsc] [B|[B|[B|B]]].
  - destruct B as [-> [_ [-> _]]]. split; assumption.
  - destruct B as [-> [_ [_ [-> _]]]]. split; [discriminate | reflexivity].
  - destruct B as [head [_ [_ [_ ->]]]]. cbn [snake score setSnake].
    rewrite length_removelast_cons. split; [|exact Hsc].
    destruct (snake s) as [|b l]; [contradiction|].
    rewrite removelast_cons_nonempty. discriminate.
  - destruct B as [newFood [_ [_ [_ ->]]]]. cbn [snake score setFood].
    rewrite snake_eatScore, score_eatScore. cbn [snake score setSnake].
    split; [discriminate|]. cbn [List.length]. lia.
Qed.

Lemma NoDup_board (s s' : State) :
  NoDup (snake s) ->
  sameBoard s s' \/ freshBoard s s' \/ movedBoard s s' \/ eatenBoard s s' ->
  NoDup (snake s').
Proof.
  intros Hnd [B|[B|[B|B]]].
  - destruct B as [-> _]. exact Hnd.
  - destruct B as [-> _]. constructor; [intros []|constructor].
  - destruct B as [head [Hh [HF [_ ->]]]].
    apply (NoDup_removelast (head :: snake s)).
    constructor; [exact (proj2 (notFatal_head s head HF Hh)) | exact Hnd].
  - destruct B as [newFood [HF [HE [_ ->]]]]. cbn [snake setFood].
    rewrite snake_eatScore. cbn [snake setSnake].
    constructor; [exact (proj2 (notFatal_head s (food s) HF HE)) | exact Hnd].
Qed.

Lemma adjacent_moveHead (d : Direction) (p : Position) :
  adjacent (moveHead d p) p.
Proof. unfold adjacent. destruct d; simpl; lia. Qed.

Lemma chain_removelast (l : list Position) : chain l -> chain (removelast l).
Proof.
  induction l as [|a l IH]; [trivial|].
  destruct l as [|b l]; [trivial|].
  intros [Hab Hc]. rewrite removelast_cons_nonempty.
  destruct l as [|c l]; [exact I|].
  rewrite removelast_cons_nonempty in *.
  split; [exact Hab | exact (IH Hc)].
Qed.

Lemma chain_nextHead (s : State) (head : Position) :
  nextHead s = Some head -> chain (snake s) -> chain (head :: snake s).
Proof.
  intros Hh Hc. destruct (nextHead_cons s head Hh) as [first [rest [Es ->]]].
  rewrite Es in *. split; [apply adjacent_moveHead | exact Hc].
Qed.

Lemma chain_board (s s' : State) :
  chain (snake s) ->
  sameBoard s s' \/ freshBoard s s' \/ movedBoard s s' \/ eatenBoard s s' ->
  chain (snake s').
Proof.
  intros Hc [B|[B|[B|B]]].
  - destruct B as [-> _]. exact Hc.
  - destruct B as [-> _]. exact I.
  - destruct B as [head [Hh [_ [_ ->]]]].
    apply (chain_removelast (head :: snake s)).
    exact (chain_nextHead s head Hh Hc).
  - destruct B as [newFood [_ [HE [_ ->]]]]. cbn [snake setFood].
    rewrite snake_eatScore. exact (chain_nextHead s (food s) HE Hc).
Qed.

(** X5.  In every state the game reaches from its first render the snake is not
    empty and the score is ten times the number of cells the snake has
    grown by: 10 * (length - 1).  So the score is never negative and
    always a multiple of 10. *)
Theorem score_counts_growth (item : option string) (es : list Event)
    (rng rng' : Rng) (s : State) :
  run es (initialState item) rng = Some (s, rng') ->
  snake s <> [] /\ score s = 10 * (Z.of_nat (List.length (snake s)) - 1).
Proof.
  intros E. apply (run_invariant scoreCountsGrowth) with (3 := E).
  - intros e s0 r0 s1 r1 H0 E1.
    exact (scoreCountsGrowth_board s0 s1 H0 (step_cases e s0 s1 r0 r1 E1)).
  - split; [discriminate | reflexivity].
Qed.

(** X6.  In every state the game reaches from its first render the snake is a
    path on the grid: no cell occurs twice in it, and each segment is a
    neighbour (Manhattan distance 1) of the next one. *)
Theorem snake_is_a_path (item : option string) (es : list Event)
    (rng rng' : Rng) (s : State) :
  run es (initialState item) rng = Some (s, rng') ->
  NoDup (snake s) /\ chain (snake s).
Proof.
  intros E.
  apply (run_invariant (fun t => NoDup (snake t) /\ chain (snake t)))
    with (3 := E).
  - intros e s0 r0 s1 r1 [Hnd Hc] E1.
    pose proof (step_cases e s0 s1 r0 r1 E1) as B.
    split; [exact (NoDup_board s0 s1 Hnd B) | exact (chain_board s0 s1 Hc B)].
  - split; [|exact I]. constructor; [intros []|constructor].
Qed.

(** ** The board stays in the grid *)

Lemma boardInGrid_step (W H : Z) (e : Event) (s s' : State) (rng rng' : Rng) :
  10 < W -> 10 < H -> keepsGrid W H e = true ->
  Forall unitSample rng -> boardInGrid W H s ->
  step e s rng = Some (s', rng') ->
  boardInGrid W H s' /\ Forall unitSample rng'.
Proof.
  intros HW HH Hk Hall [Gw [Gh [Hsn Hfo]]] E.
  split; [|exact (step_samples unitSample e s s' rng rng' Hall E)].
  destruct (step_grid W H e s s' rng rng' Hk Gw Gh E) as [Gw' Gh'].
  split; [exact Gw'|]. split; [exact Gh'|]. split.
  - destruct (step_cases e s s' rng rng' E) as [B|[B|[B|B]]].
    + destruct B as [-> _]. exact Hsn.
    + destruct B as [-> _]. constructor; [|constructor].
      unfold inGrid. simpl. lia.
    + destruct B as [head [Hh [HF [_ ->]]]]. cbn [snake setSnake].
      apply Forall_forall. intros p Hp. apply In_removelast in Hp.
      destruct Hp as [<-|Hp].
      * rewrite <- Gw, <- Gh. exact (proj1 (notFatal_head s head HF Hh)).
      * exact (proj1 (Forall_forall _ _) Hsn p Hp).
    + destruct B as [newFood [_ [_ [_ ->]]]]. cbn [snake setFood].
      rewrite snake_eatScore. cbn [snake setSnake].
      constructor; assumption.
  - destruct (step_food e s s' rng rng' E) as [->|[body G]]; [exact Hfo|].
    rewrite Gw, Gh in G.
    apply (generateFood_inGrid_aux W H body rng rng' (food s')); try lia;
      assumption.
Qed.

Lemma boardInGrid_run (W H : Z) (es : list Event) (s s' : State)
    (rng rng' : Rng) :
  10 < W -> 10 < H -> forallb (keepsGrid W H) es = true ->
  Forall unitSample rng -> boardInGrid W H s ->
  run es s rng = Some (s', rng') ->
  boardInGrid W H s' /\ Forall unitSample rng'.
Proof.
  intros HW HH.
  apply (run_invariant_samples (keepsGrid W H) (boardInGrid W H)
           (Forall unitSample)).
  intros e s0 r0 s1 r1 Hk HR HP E1.
  exact (boardInGrid_step W H e s0 s1 r0 r1 HW HH Hk HR HP E1).
Qed.

(** X7.  While the grid has more than 10 columns and rows and is not resized to
    another number of cells, and the samples are in [0, 1): a board whose
    snake and food are in the grid stays in the grid, whatever the events.
    (More than 10, because a reset puts the snake on (10,10).) *)
Theorem board_stays_in_grid (W H : Z) (es : list Event) (s s' : State)
    (rng rng' : Rng) :
  10 < W -> 10 < H -> forallb (keepsGrid W H) es = true ->
  Forall unitSample rng -> boardInGrid W H s ->
  run es s rng = Some (s', rng') ->
  gridWidth s' = W /\ gridHeight s' = H /\
  Forall (inGrid W H) (snake s') /\ inGrid W H (food s').
Proof.
  intros HW HH Hk Hall Hb E.
  exact (proj1 (boardInGrid_run W H es s s' rng rng' HW HH Hk Hall Hb E)).
Qed.

Lemma gridCells_complete (W H : Z) (p : Position) :
  inGrid W H p -> In p (gridCells W H).
Proof.
  intros [[Hx0 Hx1] [Hy0 Hy1]]. unfold gridCells. apply in_flat_map.
  exists (Z.to_nat (x p)). split; [apply in_seq; lia|].
  apply in_map_iff. exists (Z.to_nat (y p)). split; [|apply in_seq; lia].
  rewrite !Z2Nat.id by assumption. destruct p; reflexivity.
Qed.

Lemma gridCells_length (W H : Z) :
  List.length (gridCells W H) = (Z.to_nat W * Z.to_nat H)%nat.
Proof.
  unfold gridCells.
  rewrite (flat_map_constant_length (c := Z.to_nat H)).
  - now rewrite length_seq.
  - intros i _. now rewrite length_map, length_seq.
Qed.

Lemma cells_in_grid_bound (W H : Z) (l : list Position) :
  0 <= W -> 0 <= H -> NoDup l -> Forall (inGrid W H) l ->
  Z.of_nat (List.length l) <= W * H.
Proof.
  intros HW HH Hnd Hall.
  assert (Hincl : incl l (gridCells W H)).
  { intros p Hp. apply gridCells_complete.
    exact (proj1 (Forall_forall _ _) Hall p Hp). }
  pose proof (NoDup_incl_length Hnd Hincl) as Hlen.
  rewrite gridCells_length in Hlen.
  apply Nat2Z.inj_le in Hlen. rewrite Nat2Z.inj_mul, !Z2Nat.id in Hlen;
    assumption.
Qed.

(** X8.  On the default grid of 25 by 20 cells, as long as no resize changes the
    number of cells and the samples are in [0, 1), the snake never has more
    than 500 cells and the score never exceeds 4990. *)
Theorem score_bounded_on_default_grid (item : option string)
    (es : list Event) (rng rng' : Rng) (s : State) :
  forallb (keepsGrid 25 20) es = true -> Forall unitSample rng ->
  run es (initialState item) rng = Some (s, rng') ->
  Z.of_nat (List.length (snake s)) <= 500 /\ score s <= 4990.
Proof.
  intros Hk Hall E.
  assert (Hb : boardInGrid 25 20 (initialState item)).
  { unfold boardInGrid, inGrid. cbn. repeat split; try lia.
    constructor; [|constructor]. cbn. lia. }
  destruct (boardInGrid_run 25 20 es _ s rng rng' ltac:(lia) ltac:(lia)
              Hk Hall Hb E) as [[_ [_ [Hsn _]]] _].
  assert (Hnd : NoDup (snake s)).
  { apply (run_invariant (fun t => NoDup (snake t))) with (3 := E).
    - intros e s0 r0 s1 r1 H0 E1.
      exact (NoDup_board s0 s1 H0 (step_cases e s0 s1 r0 r1 E1)).
    - constructor; [intros []|constructor]. }
  assert (Hsc : scoreCountsGrowth s).
  { apply (run_invariant scoreCountsGrowth) with (3 := E).
    - intros e s0 r0 s1 r1 H0 E1.
      exact (scoreCountsGrowth_board s0 s1 H0 (step_cases e s0 s1 r0 r1 E1)).
    - split; [discriminate | reflexivity]. }
  pose proof (cells_in_grid_bound 25 20 (snake s) ltac:(lia) ltac:(lia)
                Hnd Hsn) as Hlen.
  destruct Hsc as [_ Hsc]. split; lia.
Qed.

(** ** The stored high score is read back *)

Lemma accValue_pos (d : Decimal.uint) (p : positive) :
  accValue d (Z.pos p) = Z.pos (Pos.of_uint_acc d p).
Proof.
  revert p. induction d; intros p; cbn [accValue Pos.of_uint_acc];
    [reflexivity|..]; rewrite <- IHd; f_equal; lia.
Qed.

Lemma accValue_zero (d : Decimal.uint) :
  accValue d 0 = Z.of_N (Pos.of_uint d).
Proof.
  induction d; cbn [accValue Pos.of_uint]; [reflexivity | exact IHd |..];
    match goal with
    | |- accValue _ (10 * 0 + ?k) = _ =>
        change (10 * 0 + k) with k; rewrite accValue_pos; reflexivity
    end.
Qed.

Lemma parseDigits_digit (c : ascii) (v : Z) (rest : string) (acc : option Z) :
  digitValue c = Some v -> (v <? 10) = true ->
  parseDigits 10 (String c rest) acc
  = parseDigits 10 rest
      (Some (10 * match acc with Some a => a | None => 0 end + v)).
Proof. intros Hc Hv. cbn [parseDigits]. rewrite Hc, Hv. reflexivity. Qed.

Lemma parseDigits_uint (d : Decimal.uint) (acc : option Z) :
  parseDigits 10 (NilEmpty.string_of_uint d) acc
  = match d with
    | Decimal.Nil => acc
    | _ => Some (accValue d (match acc with Some a => a | None => 0 end))
    end.
Proof.
  revert acc. induction d; intros acc; cbn [NilEmpty.string_of_uint];
    [reflexivity|..];
    match goal with
    | |- parseDigits 10 (String ?c _) _ = _ =>
        rewrite (parseDigits_digit c _ _ acc eq_refl eq_refl)
    end;
    rewrite IHd; destruct d; reflexivity.
Qed.

Lemma parseInt_uint (d : Decimal.uint) :
  d <> Decimal.Nil ->
  parseInt (NilEmpty.string_of_uint d)
  = match parseDigits 10 (NilEmpty.string_of_uint d) None with
    | Some n => JNum (1 * n)
    | None => JNaN
    end
  /\
  parseInt (String "-" (NilEmpty.string_of_uint d))
  = match parseDigits 10 (NilEmpty.string_of_uint d) None with
    | Some n => JNum (-1 * n)
    | None => JNaN
    end.
Proof.
  intros Hd. destruct d as [|d|d|d|d|d|d|d|d|d|d];
    [contradiction | destruct d; split; reflexivity
    | split; reflexivity ..].
Qed.

Lemma parseInt_toString (n : Z) : parseInt (toString n) = JNum n.
Proof.
  destruct n as [|p|p]; [reflexivity|..]; unfold toString;
    cbn [Z.to_int NilZero.string_of_int];
    pose proof (DecimalPos.Unsigned.to_uint_nonnil p) as Hd;
    pose proof (DecimalPos.Unsigned.of_to p) as Hp;
    assert (Es : NilZero.string_of_uint (Pos.to_uint p)
                 = NilEmpty.string_of_uint (Pos.to_uint p))
      by (destruct (Pos.to_uint p); [now elim Hd | reflexivity..]);
    rewrite Es;
    destruct (parseInt_uint (Pos.to_uint p) Hd) as [Epos Eneg];
    [rewrite Epos | rewrite Eneg];
    rewrite parseDigits_uint, accValue_zero, Hp;
    destruct (Pos.to_uint p); first [now elim Hd | reflexivity].
Qed.

Lemma loadHighScore_toString (n : Z) :
  loadHighScore (Some (toString n)) = JNum n.
Proof.
  unfold loadHighScore, storedOrZero.
  pose proof (parseInt_toString n) as E.
  destruct (toString n); [discriminate E | exact E].
Qed.

(** X9.  In every state the game reaches, the value in the store parses back to
    the current high score: a page started from that store begins with the
    high score the game had.  (This holds for any first content of the
    store, parsable or not.) *)
Theorem high_score_survives_reload (item : option string) (es : list Event)
    (rng rng' : Rng) (s : State) :
  run es (initialState item) rng = Some (s, rng') ->
  loadHighScore (snakeHighScore s) = highScore s /\
  highScore (initialState (snakeHighScore s)) = highScore s.
Proof.
  intros E.
  assert (H : loadHighScore (snakeHighScore s) = highScore s);
    [|split; exact H].
  apply (run_invariant
           (fun t => loadHighScore (snakeHighScore t) = highScore t))
    with (3 := E); [|reflexivity].
  intros e s0 r0 s1 r1 H0 E1.
  destruct (step_cases e s0 s1 r0 r1 E1) as [B|[B|[B|B]]].
  - destruct B as [_ [_ [_ [-> ->]]]]. exact H0.
  - destruct B as [_ [_ [_ [_ [-> ->]]]]]. exact H0.
  - destruct B as [head [_ [_ [_ ->]]]]. exact H0.
  - destruct B as [newFood [_ [_ [_ ->]]]].
    cbn [snakeHighScore highScore setFood]. unfold eatScore.
    destruct (gtb_js _ _); cbn; [apply loadHighScore_toString | exact H0].
Qed.

(** ** Input while playing and while idle *)

(** X10.  The pause button swaps ['PLAYING'] and ['PAUSED'] and changes
    nothing else; before the start and after the end of a game it does
    nothing; so pressing it twice gives back the state it started from, in
    every phase. *)
Theorem togglePause_twice (s : State) :
  (gameState s = PLAYING -> togglePause s = setGameState PAUSED s) /\
  (gameState s = PAUSED -> togglePause s = setGameState PLAYING s) /\
  (gameState s = START \/ gameState s = GAME_OVER -> togglePause s = s) /\
  togglePause (togglePause s) = s.
Proof.
  destruct s as [sn fo di gs sc hs gw gh st pe]. cbn [gameState].
  split; [|split; [|split]].
  - intros ->. reflexivity.
  - intros ->. reflexivity.
  - intros [-> | ->]; reflexivity.
  - destruct gs; reflexivity.
Qed.

Lemma lowerAscii_idem (c : ascii) : lowerAscii (lowerAscii c) = lowerAscii c.
Proof.
  destruct c as [[] [] [] [] [] [] [] []]; reflexivity.
Qed.

Lemma toLowerCase_idem (k : string) :
  toLowerCase (toLowerCase k) = toLowerCase k.
Proof.
  induction k as [|c k IH]; [reflexivity|].
  cbn [toLowerCase]. now rewrite lowerAscii_idem, IH.
Qed.

(** X11.  Each arrow key and its letter do exactly what the touch button of that
    direction does, in every state; and the keyboard handler does not
    distinguish upper from lower case. *)
Theorem keys_match_touch_buttons (s : State) :
  handleKeyPress "ArrowUp" s = handleTouch UP s /\
  handleKeyPress "w" s = handleTouch UP s /\
  handleKeyPress "ArrowDown" s = handleTouch DOWN s /\
  handleKeyPress "s" s = handleTouch DOWN s /\
  handleKeyPress "ArrowLeft" s = handleTouch LEFT s /\
  handleKeyPress "a" s = handleTouch LEFT s /\
  handleKeyPress "ArrowRight" s = handleTouch RIGHT s /\
  handleKeyPress "d" s = handleTouch RIGHT s /\
  forall key, handleKeyPress key s = handleKeyPress (toLowerCase key) s.
Proof.
  repeat match goal with
         | |- _ = handleTouch _ _ /\ _ =>
             split; [unfold handleKeyPress, handleTouch;
                     destruct (negb _); reflexivity|]
         end.
  intros key. unfold handleKeyPress. now rewrite toLowerCase_idem.
Qed.

Lemma opposite_inj (a b : Direction) : opposite a = opposite b -> a = b.
Proof. destruct a, b; simpl; congruence. Qed.

(** X12.  Two direction requests between two ticks reverse the snake although a
    single request cannot: from a snake of two or more cells whose second
    cell is right behind the head, a turn to the side followed by the
    opposite of the original direction is stored, and the next tick runs
    the head into the second cell and ends the game. *)
Theorem quick_double_turn_is_fatal (s : State) (head neck : Position)
    (rest : list Position) (side : Direction) (rng : Rng) :
  gameState s = PLAYING ->
  snake s = head :: neck :: rest ->
  neck = moveHead (opposite (direction s)) head ->
  side <> direction s -> side <> opposite (direction s) ->
  exists s2 s3,
    run [TouchStart side; TouchStart (opposite (direction s))] s rng
    = Some (s2, rng) /\
    direction s2 = opposite (direction s) /\ snake s2 = snake s /\
    step Tick s2 rng = Some (s3, rng) /\
    gameState s3 = GAME_OVER /\ snake s3 = snake s.
Proof.
  intros HP Hs Hneck Hside Hopp.
  set (s1 := setDirection side s).
  set (s2 := setDirection (opposite (direction s)) s1).
  assert (E1 : handleTouch side s = s1).
  { unfold handleTouch. rewrite HP. cbn [GameState_eqb negb].
    now rewrite (proj2 (touchUpdater_spec side (direction s)) Hopp). }
  assert (E2 : handleTouch (opposite (direction s)) s1 = s2).
  { unfold handleTouch, s2, s1. cbn [gameState direction setDirection].
    rewrite HP. cbn [GameState_eqb negb].
    rewrite (proj2 (touchUpdater_spec (opposite (direction s)) side));
      [reflexivity|].
    intros E. apply opposite_inj in E. apply Hside. symmetry. exact E. }
  assert (HF : Fatal s2).
  { exists neck. split.
    - unfold nextHead, s2, s1. cbn [snake direction setDirection].
      rewrite Hs, Hneck. reflexivity.
    - right. unfold s2, s1. cbn [snake setDirection]. rewrite Hs.
      right. left. reflexivity. }
  exists s2, (setGameState GAME_OVER s2). split.
  - cbn [run step]. unfold bind, ret. rewrite E1, E2. reflexivity.
  - split; [reflexivity|]. split; [reflexivity|]. split.
    + cbn [step]. change (gameState s2) with (gameState s). rewrite HP.
      cbn [GameState_eqb]. exact (moveSnake_fatal s2 rng HF).
    + split; reflexivity.
Qed.

(** X13.  While the game is not running (before the start, paused or over),
    ticks, keys and direction buttons change nothing, in any number and
    order. *)
Theorem idle_game_is_frozen (es : list Event) (s : State) (rng : Rng) :
  gameState s <> PLAYING -> forallb tickOrInput es = true ->
  run es s rng = Some (s, rng).
Proof.
  intros Hn. induction es as [|e es IH]; [reflexivity|].
  cbn [forallb]. intros Hok. apply andb_true_iff in Hok.
  destruct Hok as [He Hes]. cbn [run]. unfold bind.
  assert (E : step e s rng = Some (s, rng)).
  { destruct e; try discriminate He; cbn [step]; unfold ret.
    - now rewrite (handleKeyPress_idle key s Hn).
    - now rewrite (handleTouch_idle d s Hn).
    - destruct (GameState_eqb (gameState s) PLAYING) eqn:G; [|reflexivity].
      apply GameState_eqb_eq in G. contradiction. }
  rewrite E. exact (IH Hes).
Qed.

(** ** Start *)

(** X14.  A start command before the first game does not reset anything: the
    command and its timeout callback change the phase to ['PLAYING'] and
    nothing else, and use no sample. *)
Theorem start_from_ready_keeps_board (s : State) (rng : Rng) :
  gameState s = START ->
  run [ClickStart; StartTimeout] s rng = Some (setGameState PLAYING s, rng).
Proof.
  destruct s as [sn fo di gs sc hs gw gh st pe]. cbn [gameState].
  intros ->. reflexivity.
Qed.

(** X15.  Every start command schedules a timeout of its own, and the callback
    sets ['PLAYING'] whatever the phase then is: after two start commands,
    the first callback starts the game, the space bar pauses it, and the
    second callback resumes the paused game with the board as it is. *)
Theorem stale_start_timeout_resumes (s : State) (rng : Rng) :
  gameState s = START ->
  exists s4 s5,
    run [ClickStart; ClickStart; StartTimeout; KeyDown " "] s rng
    = Some (s4, rng) /\
    gameState s4 = PAUSED /\
    step StartTimeout s4 rng = Some (s5, rng) /\
    gameState s5 = PLAYING /\ sameBoard s4 s5 /\ sameBoard s s5.
Proof.
  destruct s as [sn fo di gs sc hs gw gh st pe]. cbn [gameState].
  intros ->. eexists. eexists.
  split; [reflexivity|]. split; [reflexivity|].
  split; [reflexivity|]. split; [reflexivity|]. split; board.
Qed.

(** ** Resizing *)

Lemma floor_cells (width : Q) :
  (inject_Z (Qfloor (width / inject_Z GRID_SIZE) * GRID_SIZE) <= width)%Q /\
  (width < inject_Z ((Qfloor (width / inject_Z GRID_SIZE) + 1) * GRID_SIZE))%Q.
Proof.
  assert (Hpos : (0 < inject_Z GRID_SIZE)%Q) by reflexivity.
  assert (Hne : ~ (inject_Z GRID_SIZE == 0)%Q) by discriminate.
  assert (Hw : (width / inject_Z GRID_SIZE * inject_Z GRID_SIZE == width)%Q).
  { rewrite Qmult_comm. apply Qmult_div_r. exact Hne. }
  split.
  - rewrite inject_Z_mult. rewrite <- Hw at 2.
    apply Qmult_le_compat_r; [apply Qfloor_le | apply Qlt_le_weak; exact Hpos].
  - rewrite inject_Z_mult. rewrite <- Hw at 1.
    apply Qmult_lt_compat_r; [exact Hpos | apply Qlt_floor].
Qed.

(** X16.  After a resize the grid has as many whole cells of 20 pixels as fit in
    the width and in the height of the canvas rectangle, no more and no
    less; snake, food, score and high score are left where they are, inside
    the new grid or not. *)
Theorem updateGridSize_fits (width height : Q) (s : State) :
  let s' := updateGridSize width height s in
  (inject_Z (gridWidth s' * GRID_SIZE) <= width)%Q /\
  (width < inject_Z ((gridWidth s' + 1) * GRID_SIZE))%Q /\
  (inject_Z (gridHeight s' * GRID_SIZE) <= height)%Q /\
  (height < inject_Z ((gridHeight s' + 1) * GRID_SIZE))%Q /\
  sameBoard s s' /\ gameState s' = gameState s /\ direction s' = direction s.
Proof.
  cbn zeta. cbn [updateGridSize gridWidth gridHeight setGridWidth setGridHeight].
  destruct (floor_cells width) as [Hw0 Hw1].
  destruct (floor_cells height) as [Hh0 Hh1].
  repeat split; assumption.
Qed.

(** ** Drawing *)

Lemma drawSegment_inside (isHead : bool) (segment : Position)
    (left top width height : Z) :
  In (FillRect left top width height) (drawSegment isHead segment) ->
  insideCell segment left top width height.
Proof.
  unfold drawSegment, insideCell, GRID_SIZE. destruct isHead; simpl;
    intros Hin;
    repeat match goal with
           | H : _ \/ _ |- _ => destruct H as [H|H]
           | H : False |- _ => destruct H
           | H : FillRect _ _ _ _ = FillRect _ _ _ _ |- _ =>
               injection H as <- <- <- <-
           | H : _ = FillRect _ _ _ _ |- _ => discriminate H
           end; lia.
Qed.

Lemma drawSnake_inside (body : list Position) (left top width height : Z) :
  In (FillRect left top width height) (drawSnake body) ->
  exists segment, In segment body /\ insideCell segment left top width height.
Proof.
  destruct body as [|first rest]; [intros []|].
  cbn [drawSnake]. intros Hin. apply in_app_or in Hin.
  destruct Hin as [Hin|Hin].
  - exists first. split; [left; reflexivity|].
    exact (drawSegment_inside true first _ _ _ _ Hin).
  - apply in_flat_map in Hin. destruct Hin as [segment [Hs Hin]].
    exists segment. split; [right; exact Hs|].
    exact (drawSegment_inside false segment _ _ _ _ Hin).
Qed.

(** X17.  Every rectangle painted for the snake (the square of a segment, or an
    eye of the head) lies inside the 20-pixel cell of one of its segments,
    at least one pixel off the cell's border. *)
Theorem snake_painted_inside_cells (body : list Position)
    (left top width height : Z) :
  In (FillRect left top width height) (drawSnake body) ->
  exists segment, In segment body /\
    x segment * 20 < left /\ left + width < (x segment + 1) * 20 /\
    y segment * 20 < top /\ top + height < (y segment + 1) * 20.
Proof. exact (drawSnake_inside body left top width height). Qed.

(** X18.  When the food is off the snake, the disc painted for the food and any
    rectangle painted for the snake do not overlap: the disc's bounding box
    and the rectangle are apart in one of the two axes. *)
Theorem food_painted_apart_from_snake (s : State)
    (left top width height cx cy radius : Z) :
  ~ In (food s) (snake s) ->
  In (FillRect left top width height) (drawSnake (snake s)) ->
  In (ArcFull cx cy radius) (drawFood (food s)) ->
  left + width <= cx - radius \/ cx + radius <= left \/
  top + height <= cy - radius \/ cy + radius <= top.
Proof.
  intros Hoff Hrect Harc.
  destruct (drawSnake_inside _ _ _ _ _ Hrect) as [segment [Hseg Hin]].
  assert (Hne : segment <> food s) by (intros ->; exact (Hoff Hseg)).
  unfold drawFood in Harc. simpl in Harc.
  destruct Harc as [Harc|[Harc|[Harc|[Harc|[]]]]]; try discriminate Harc.
  injection Harc as <- <- <-.
  unfold insideCell, GRID_SIZE in *.
  change (20 / 2) with 10.
  assert (Hxy : x segment <> x (food s) \/ y segment <> y (food s)).
  { destruct segment as [sx sy], (food s) as [fx fy]. simpl.
    destruct (Z.eq_dec sx fx) as [->|]; [|left; assumption].
    destruct (Z.eq_dec sy fy) as [->|]; [|right; assumption].
    exfalso. apply Hne. reflexivity. }
  lia.
Qed.

(** ** A plain move *)

Lemma nth_error_removelast {A} (l : list A) (i : nat) :
  (S i < List.length l)%nat ->
  nth_error (removelast l) i = nth_error l i.
Proof.
  revert i. induction l as [|a l IH]; intros i Hi; [inversion Hi|].
  destruct l as [|b l]; [cbn in Hi; lia|].
  rewrite removelast_cons_nonempty.
  destruct i as [|i]; [reflexivity|].
  cbn [nth_error]. apply IH. cbn [List.length] in *. lia.
Qed.

(** X19.  A tick that neither ends the game nor eats moves the head one cell in
    the stored direction and every other segment to the cell of the segment
    before it; the last cell is given up. *)
Theorem plain_move_shifts_segments (s s' : State) (rng rng' : Rng)
    (first : Position) (rest : list Position) :
  snake s = first :: rest -> ~ Fatal s -> ~ EatsFood s ->
  moveSnake s rng = Some (s', rng') ->
  nth_error (snake s') 0 = Some (moveHead (direction s) first) /\
  (forall i, (S i < List.length (snake s))%nat ->
     nth_error (snake s') (S i) = nth_error (snake s) i) /\
  List.length (snake s') = List.length (snake s) /\ rng' = rng.
Proof.
  intros Hs HF HE E.
  assert (Hh : nextHead s = Some (moveHead (direction s) first))
    by (unfold nextHead; rewrite Hs; reflexivity).
  rewrite (moveSnake_move s rng _ Hh HF HE) in E.
  assert (Es : s' = setSnake (removelast (moveHead (direction s) first
                                            :: snake s)) s /\ rng' = rng)
    by (split; congruence).
  destruct Es as [-> ->]. clear E.
  cbn [snake setSnake]. rewrite Hs. rewrite removelast_cons_nonempty.
  split; [reflexivity|]. split; [|split; [|reflexivity]].
  - intros i Hi. cbn [nth_error]. apply nth_error_removelast. exact Hi.
  - cbn [List.length]. now rewrite length_removelast_cons.
Qed.

(** ** The further properties at concrete games *)

Lemma unit_samples_0 : Forall unitSample [0; 0]%Q.
Proof.
  repeat constructor; try (intros C; discriminate C).
Qed.

Lemma unit_samples_half :
  Forall unitSample [2 # 5; 1 # 2; 1 # 4; 3 # 4]%Q.
Proof.
  repeat constructor; try (intros C; discriminate C).
Qed.

Lemma generateFood_in_grid_witness :
  inGrid 25 20 (mkPosition 6 15) /\ Forall unitSample [].
Proof.
  apply (generateFood_in_grid 25 20 INITIAL_SNAKE
           [2 # 5; 1 # 2; 1 # 4; 3 # 4]%Q [] (mkPosition 6 15)).
  - lia.
  - lia.
  - exact unit_samples_half.
  - vm_compute. reflexivity.
Defined.

Lemma generateFood_full_board_witness :
  generateFood 1 1 [mkPosition 0 0] [2 # 5; 1 # 2; 1 # 4; 3 # 4]%Q = None.
Proof.
  apply (generateFood_full_board 1 1 [mkPosition 0 0]).
  - lia.
  - lia.
  - exact unit_samples_half.
  - intros [px py] [[Hx0 Hx1] [Hy0 Hy1]]. simpl in *. left. f_equal; lia.
Defined.

Lemma moveSnake_last_cell_hangs_witness :
  moveSnake lastCellState [2 # 5; 1 # 2; 1 # 4; 3 # 4]%Q = None.
Proof.
  apply (moveSnake_last_cell_hangs lastCellState).
  - reflexivity.
  - reflexivity.
  - exact unit_samples_half.
  - apply (not_Fatal_by_check lastCellState (mkPosition 1 0)); reflexivity.
  - reflexivity.
  - intros [px py] [[Hx0 Hx1] [Hy0 Hy1]]. simpl in *.
    assert (Hy : py = 0) by lia. subst py.
    assert (Hx : px = 0 \/ px = 1) by lia.
    destruct Hx as [->| ->]; [right; left | left]; reflexivity.
Defined.

Lemma generateFood_empty_grid_witness :
  (mkPosition 0 0 = mkPosition 0 0 /\ ~ inGrid 0 0 (mkPosition 0 0)) /\
  generateFood 0 0 [mkPosition 0 0] [1 # 2; 1 # 2]%Q = None.
Proof.
  split.
  - apply (proj1 (generateFood_empty_grid [] [1 # 2; 1 # 2]%Q)
             (mkPosition 0 0) []).
    vm_compute. reflexivity.
  - apply (proj2 (generateFood_empty_grid [mkPosition 0 0] [1 # 2; 1 # 2]%Q)).
    left. reflexivity.
Defined.

Lemma score_counts_growth_witness :
  snake recordState <> [] /\
  score recordState = 10 * (Z.of_nat (List.length (snake recordState)) - 1).
Proof.
  apply (score_counts_growth None recordRun [0; 0]%Q [] recordState).
  vm_compute. reflexivity.
Defined.

Lemma snake_is_a_path_witness :
  NoDup (snake recordState) /\ chain (snake recordState).
Proof.
  apply (snake_is_a_path None recordRun [0; 0]%Q [] recordState).
  vm_compute. reflexivity.
Defined.

Lemma boardInGrid_initial : boardInGrid 25 20 (initialState None).
Proof.
  unfold boardInGrid, inGrid. cbn. repeat split; try lia.
  constructor; [|constructor]. cbn. lia.
Qed.

Lemma board_stays_in_grid_witness :
  gridWidth recordState = 25 /\ gridHeight recordState = 20 /\
  Forall (inGrid 25 20) (snake recordState) /\
  inGrid 25 20 (food recordState).
Proof.
  apply (board_stays_in_grid 25 20 mountedRun (initialState None) recordState
           [0; 0]%Q []).
  - lia.
  - lia.
  - reflexivity.
  - exact unit_samples_0.
  - exact boardInGrid_initial.
  - vm_compute. reflexivity.
Defined.

Lemma score_bounded_on_default_grid_witness :
  Z.of_nat (List.length (snake recordState)) <= 500 /\
  score recordState <= 4990.
Proof.
  apply (score_bounded_on_default_grid None mountedRun [0; 0]%Q []).
  - reflexivity.
  - exact unit_samples_0.
  - vm_compute. reflexivity.
Defined.

Lemma high_score_survives_reload_witness :
  loadHighScore (snakeHighScore recordState) = JNum 10 /\
  highScore (initialState (snakeHighScore recordState)) = JNum 10.
Proof.
  apply (high_score_survives_reload None recordRun [0; 0]%Q [] recordState).
  vm_compute. reflexivity.
Defined.

Lemma quick_double_turn_is_fatal_witness :
  exists s2 s3,
    run [TouchStart UP; TouchStart LEFT] twoCellState [] = Some (s2, []) /\
    direction s2 = LEFT /\ snake s2 = snake twoCellState /\
    step Tick s2 [] = Some (s3, []) /\
    gameState s3 = GAME_OVER /\ snake s3 = snake twoCellState.
Proof.
  apply (quick_double_turn_is_fatal twoCellState (mkPosition 3 2)
           (mkPosition 2 2) [] UP []).
  - reflexivity.
  - reflexivity.
  - reflexivity.
  - discriminate.
  - discriminate.
Defined.

Lemma idle_game_is_frozen_witness :
  run [Tick; KeyDown "w"; TouchStart UP; KeyDown " "; Tick] pausedState
      [0; 0]%Q
  = Some (pausedState, [0; 0]%Q).
Proof.
  apply (idle_game_is_frozen
           [Tick; KeyDown "w"; TouchStart UP; KeyDown " "; Tick] pausedState).
  - discriminate.
  - reflexivity.
Defined.

Lemma start_from_ready_keeps_board_witness :
  run [ClickStart; StartTimeout] (initialState None) []
  = Some (setGameState PLAYING (initialState None), []).
Proof.
  apply (start_from_ready_keeps_board (initialState None) []). reflexivity.
Defined.

Lemma stale_start_timeout_resumes_witness :
  exists s4 s5,
    run [ClickStart; ClickStart; StartTimeout; KeyDown " "]
        (initialState None) []
    = Some (s4, []) /\
    gameState s4 = PAUSED /\
    step StartTimeout s4 [] = Some (s5, []) /\
    gameState s5 = PLAYING /\ sameBoard s4 s5 /\
    sameBoard (initialState None) s5.
Proof.
  apply (stale_start_timeout_resumes (initialState None) []). reflexivity.
Defined.

Lemma snake_painted_inside_cells_witness :
  exists segment, In segment (snake eatState) /\
    x segment * 20 < 66 /\ 66 + 3 < (x segment + 1) * 20 /\
    y segment * 20 < 45 /\ 45 + 3 < (y segment + 1) * 20.
Proof.
  apply (snake_painted_inside_cells (snake eatState) 66 45 3 3).
  right. right. right. left. reflexivity.
Defined.

Lemma food_painted_apart_from_snake_witness :
  61 + 18 <= 90 - 8 \/ 90 + 8 <= 61 \/ 41 + 18 <= 50 - 8 \/ 50 + 8 <= 41.
Proof.
  apply (food_painted_apart_from_snake eatState 61 41 18 18 90 50 8).
  - intros [E|[]]. discriminate E.
  - right. left. reflexivity.
  - right. right. left. reflexivity.
Defined.

Lemma plain_move_shifts_segments_witness :
  nth_error [mkPosition 3 2; mkPosition 2 2; mkPosition 1 2] 0
  = Some (mkPosition 3 2) /\
  (forall i, (S i < 3)%nat ->
     nth_error [mkPosition 3 2; mkPosition 2 2; mkPosition 1 2] (S i)
     = nth_error (snake threeCellState) i) /\
  3%nat = 3%nat /\ @nil Q = [].
Proof.
  apply (plain_move_shifts_segments threeCellState
           (setSnake [mkPosition 3 2; mkPosition 2 2; mkPosition 1 2]
                     threeCellState)
           [] [] (mkPosition 2 2) [mkPosition 1 2; mkPosition 0 2]).
  - reflexivity.
  - apply (not_Fatal_by_check threeCellState (mkPosition 3 2)); reflexivity.
  - apply (not_EatsFood_by_test threeCellState (mkPosition 3 2)); reflexivity.
  - reflexivity.
Defined.

Lemma togglePause_twice_witness :
  togglePause moveState = setGameState PAUSED moveState /\
  togglePause pausedState = setGameState PLAYING pausedState /\
  togglePause overState = overState /\
  togglePause (initialState None) = initialState None /\
  togglePause (togglePause moveState) = moveState.
Proof.
  destruct (togglePause_twice moveState) as [Hplay [_ [_ Htwice]]].
  split; [apply Hplay; reflexivity|].
  split; [apply (proj1 (proj2 (togglePause_twice pausedState))); reflexivity|].
  split; [apply (proj1 (proj2 (proj2 (togglePause_twice overState))));
          right; reflexivity|].
  split; [apply (proj1 (proj2 (proj2 (togglePause_twice (initialState None)))));
          left; reflexivity|].
  exact Htwice.
Defined.

(** ** The high score over the sessions *)

Lemma maxScore_head (s : State) (rest : list State) :
  score s <= maxScore (s :: rest).
Proof. destruct rest; cbn; lia. Qed.

Lemma maxScore_app (l1 l2 : list State) :
  l1 <> [] -> l2 <> [] ->
  maxScore (l1 ++ l2) = Z.max (maxScore l1) (maxScore l2).
Proof.
  intros H1 H2. induction l1 as [|a l1 IH]; [contradiction|].
  destruct l1 as [|b l1].
  - destruct l2 as [|c l2]; [contradiction | reflexivity].
  - change (maxScore ((a :: b :: l1) ++ l2))
      with (Z.max (score a) (maxScore ((b :: l1) ++ l2))).
    change (maxScore (a :: b :: l1))
      with (Z.max (score a) (maxScore (b :: l1))).
    rewrite IH by discriminate. lia.
Qed.

(** The store holds the high score, in every state of a session. *)
Lemma store_holds_highScore (item : option string) (es : list Event)
    (rng rng' : Rng) (s : State) :
  run es (initialState item) rng = Some (s, rng') ->
  loadHighScore (snakeHighScore s) = highScore s.
Proof.
  intros E.
  apply (run_invariant
           (fun t => loadHighScore (snakeHighScore t) = highScore t))
    with (3 := E); [|reflexivity].
  intros e s0 r0 s1 r1 H0 E1.
  destruct (step_cases e s0 s1 r0 r1 E1) as [B|[B|[B|B]]].
  - destruct B as [_ [_ [_ [-> ->]]]]. exact H0.
  - destruct B as [_ [_ [_ [_ [-> ->]]]]]. exact H0.
  - destruct B as [head [_ [_ [_ ->]]]]. exact H0.
  - destruct B as [newFood [_ [_ [_ ->]]]].
    cbn [snakeHighScore highScore setFood]. unfold eatScore.
    destruct (gtb_js _ _); cbn; [apply loadHighScore_toString | exact H0].
Qed.

(** After sessions that started from a store holding the number [h], the
    store holds the larger of [h] and the largest score of those
    sessions. *)
Lemma lifetime_record (sessions : list Session) :
  forall (item item' : option string) (h : Z) (before : list State),
    loadHighScore item = JNum h -> 0 <= h ->
    lifetime item sessions = Some (before, item') ->
    loadHighScore item'
    = JNum match before with
           | [] => h
           | _ :: _ => Z.max h (maxScore before)
           end.
Proof.
  induction sessions as [|[es rng] rest IH]; intros item item' h before Hh H0 E.
  - cbn in E. injection E as <- <-. exact Hh.
  - cbn [lifetime] in E.
    destruct (runStates es (initialState item) rng) as [[ss r]|] eqn:R;
      [|discriminate].
    destruct (lifetime _ rest) as [[more it]|] eqn:L; [|discriminate].
    injection E as <- <-.
    pose proof (run_record es _ rng r ss h (recordIs_initial item h Hh H0) R)
      as [Hlast [Hpos _]].
    pose proof (store_holds_highScore item es rng r _
                  (runStates_last es _ rng r ss R)) as Hst.
    rewrite Hlast in Hst.
    pose proof (IH _ _ _ _ Hst Hpos L) as Hit.
    destruct (runStates_head es _ rng r ss R) as [tail ->].
    rewrite Hit. f_equal.
    destruct more as [|m more].
    + rewrite app_nil_r. reflexivity.
    + change ((initialState item :: tail) ++ m :: more)
        with (initialState item :: (tail ++ m :: more)).
      change (initialState item :: (tail ++ m :: more))
        with ((initialState item :: tail) ++ m :: more).
      rewrite maxScore_app by discriminate.
      destruct ((initialState item :: tail) ++ m :: more) eqn:A;
        [discriminate A | lia].
Qed.

(** C6.  Let the store be empty before the first session and let sessions
    follow one another, each starting from the store the one before left.
    Then at every point of a session the high score is the largest score
    observed so far, in this session and in those before it; and the next
    event, whatever it is, does not lower the high score and changes it
    exactly when the score it leaves is above the high score, to that
    score. *)
Theorem highScore_is_max_ever_observed (sessions : list Session)
    (before : list State) (item : option string)
    (es : list Event) (rng rng' : Rng) (ss : list State) :
  lifetime None sessions = Some (before, item) ->
  runStates es (initialState item) rng = Some (ss, rng') ->
  let s := last ss (initialState item) in
  highScore s = JNum (maxScore (before ++ ss)) /\
  forall e s' rng'', step e s rng' = Some (s', rng'') ->
    exists h h', highScore s = JNum h /\ highScore s' = JNum h' /\
      h <= h' /\ (h' <> h <-> h < score s') /\ (h' <> h -> h' = score s').
Proof.
  intros L R s.
  pose proof (lifetime_record sessions None item 0 before eq_refl
                (Z.le_refl 0) L) as Hitem.
  assert (Hpos : 0 <= match before with
                      | [] => 0
                      | _ :: _ => Z.max 0 (maxScore before)
                      end) by (destruct before; lia).
  pose proof (run_record es _ rng rng' ss _
                (recordIs_initial item _ Hitem Hpos) R) as HR.
  fold s in HR.
  destruct (runStates_head es _ rng rng' ss R) as [tail Ess].
  assert (Hss : 0 <= maxScore ss).
  { rewrite Ess. exact (maxScore_head (initialState item) tail). }
  assert (Hmax : Z.max match before with
                       | [] => 0
                       | _ :: _ => Z.max 0 (maxScore before)
                       end (maxScore ss)
                 = maxScore (before ++ ss)).
  { destruct before as [|b before]; [cbn [app]; lia|].
    rewrite maxScore_app; [lia | discriminate | rewrite Ess; discriminate]. }
  rewrite Hmax in HR. split; [exact (proj1 HR)|].
  intros e s' rng'' E1.
  destruct (step_record e s s' rng' rng'' _ HR E1) as [h' [HR' Hrest]].
  exists (maxScore (before ++ ss)), h'.
  split; [exact (proj1 HR)|]. split; [exact (proj1 HR')|]. exact Hrest.
Qed.

Lemma highScore_is_max_ever_observed_witness :
  (highScore (last laterStates (initialState (Some "10"%string)))
   = JNum (maxScore (earlierStates ++ laterStates)) /\
   maxScore (earlierStates ++ laterStates) = 10 /\
   exists h h',
     highScore (last laterStates (initialState (Some "10"%string))) = JNum h /\
     highScore laterRecordState = JNum h' /\ h <= h' /\
     (h' <> h <-> h < score laterRecordState) /\
     (h' <> h -> h' = score laterRecordState))
  /\
  (highScore (last approachStates (initialState None))
   = JNum (maxScore approachStates) /\
   exists h h',
     highScore (last approachStates (initialState None)) = JNum h /\
     highScore recordState = JNum h' /\ h <= h' /\
     (h' <> h <-> h < score recordState) /\
     (h' <> h -> h' = score recordState)).
Proof.
  split.
  - destruct (highScore_is_max_ever_observed earlierSessions earlierStates
                (Some "10"%string) approachRun [0; 0]%Q [0; 0]%Q laterStates
                eq_refl eq_refl) as [Hmax Hstep].
    split; [exact Hmax|]. split; [reflexivity|].
    exact (Hstep Tick laterRecordState [] eq_refl).
  - destruct (highScore_is_max_ever_observed [] [] None approachRun
                [0; 0]%Q [0; 0]%Q approachStates eq_refl eq_refl)
      as [Hmax Hstep].
    split; [exact Hmax|].
    exact (Hstep Tick recordState [] eq_refl).
Defined.
